(** * luax parser: normalisation of the raw parse tree (transform.py)

    A shallow embedding of [third_party/luax/parser/transform.py]: the
    class [Node] with [fromValue], [fromInput], [toDict] and [_mapOpName],
    the helper [reprsInt], and the pipeline of the module's last line.

    Python values are modelled as follows.
    - What [json.loads] returns is a [json] value: a scalar, a list or a
      dict whose keys are strings.  A dict keeps its insertion order, so
      it is an association list; [dict_get] is subscripting.
    - [None] is the scalar [SNone], both for JSON [null] and for an unset
      attribute: Python cannot tell them apart either.
    - A raised exception is the [Raise] case of [result]; the interpreter's
      recursion limit is not modelled. *)

From Stdlib Require Import Ascii ZArith Lia.
From stdpp Require Import base option list strings numbers sorting.

Set Warnings "-register-all".

Open Scope string_scope.
Open Scope Z_scope.
Open Scope nat_scope.
Open Scope list_scope.

(** ** Python values *)

(** Scalars of [json.loads].  A float is carried as its binary64 bit
    pattern: the transform never computes with a number. *)
Inductive scalar : Type :=
| SNone
| SBool (b : bool)
| SInt (z : Z)
| SFloat (bits : Z)
| SStr (s : string).

Inductive json : Type :=
| JScalar (a : scalar)
| JList (items : list json)
| JObj (fields : list (string * json)).

(** What [toDict] returns: scalars passed through, lists, and dicts built
    by dict displays, whose keys are hashable, hence scalars. *)
Inductive pyval : Type :=
| PScalar (a : scalar)
| PList (items : list pyval)
| PDict (fields : list (scalar * pyval)).

Inductive exn : Type :=
| AssertionError
| Exception (msg : string)
| TypeError
| IndexError
| AttributeError.

Inductive result (A : Type) : Type :=
| Ok (a : A)
| Raise (e : exn).
Arguments Ok {A} a.
Arguments Raise {A} e.

#[global] Instance result_ret : MRet result := @Ok.

#[global] Instance result_bind : MBind result :=
  fun A B k r =>
    match r with
    | Ok a => k a
    | Raise e => Raise e
    end.

(** [assert(b)] *)
Definition assert (b : bool) : result unit :=
  if b then Ok tt else Raise AssertionError.

(** ** Dicts *)

Fixpoint dict_get {V : Type} (k : string) (d : list (string * V)) : option V :=
  match d with
  | [] => None
  | (k', v) :: d' => if String.eqb k k' then Some v else dict_get k d'
  end.

Definition dict_keys {V : Type} (d : list (string * V)) : list string := d.*1.

(** ** [int(s)] on a string, and [reprsInt]

    [int] in base ten reads optional whitespace, an optional sign, and
    digits that single underscores may separate; whitespace may follow.
    The model covers ASCII strings and puts no bound on the number of
    digits. *)

Module PyInt.

(** Python's whitespace among the ASCII characters. *)
Definition is_space (c : ascii) : bool :=
  let n := nat_of_ascii c in
  ((9 <=? n) && (n <=? 13)) || ((28 <=? n) && (n <=? 32)).

Definition digit (c : ascii) : option Z :=
  let n := nat_of_ascii c in
  if (48 <=? n) && (n <=? 57) then Some (Z.of_nat (n - 48)) else None.

Definition is_underscore (c : ascii) : bool := Ascii.eqb c "_"%char.

Fixpoint lstrip (cs : list ascii) : list ascii :=
  match cs with
  | c :: cs' => if is_space c then lstrip cs' else cs
  | [] => []
  end.

Definition strip (cs : list ascii) : list ascii :=
  rev (lstrip (rev (lstrip cs))).

(** Digits with single underscores between them; [prev] tells that the
    last character read was an underscore. *)
Fixpoint digits (cs : list ascii) (prev : bool) (acc : Z) : option Z :=
  match cs with
  | [] => if prev then None else Some acc
  | c :: cs' =>
      if is_underscore c then
        if prev then None else digits cs' true acc
      else
        match digit c with
        | Some d => digits cs' false (10 * acc + d)%Z
        | None => None
        end
  end.

Definition magnitude (cs : list ascii) : option Z :=
  match cs with
  | [] => None
  | c :: _ => if is_underscore c then None else digits cs false 0%Z
  end.

(** [int(s)] in base ten for an ASCII string: [None] is [ValueError]. *)
Definition parse (s : string) : option Z :=
  match strip (String.list_ascii_of_string s) with
  | "-"%char :: cs => Z.opp <$> magnitude cs
  | "+"%char :: cs => magnitude cs
  | cs => magnitude cs
  end.

End PyInt.

Definition reprsInt (s : string) : bool :=
  match PyInt.parse s with
  | Some _ => true
  | None => false
  end.

(** ** class Node *)

Inductive Node : Type :=
  mkNode { tag : json; children : list Node; value : scalar }.

(** [Node()] of [__init__]. *)
Definition Node_init : Node :=
  {| tag := JScalar SNone; children := []; value := SNone |}.

Definition fromValue (v : scalar) : Node :=
  {| tag := tag Node_init; children := children Node_init; value := v |}.

(** [fromInput] returns a node or [None].  The loop over a dict visits the
    keys in insertion order and subscripts the dict with each of them;
    [built] holds [fromInput] of every field value, so that
    [fromInput(inNode[k])] is [built[k]] (see [fromInput_dict]). *)
Fixpoint fromInput (inNode : json) : option Node :=
  match inNode with
  | JObj fields =>
      let built := (fun kv : string * json => let '(k, v) := kv in (k, fromInput v)) <$> fields in
      match dict_get "tag" fields with
      | None => None
      | Some t =>
          Some {| tag := t;
                  children :=
                    omap (fun k => if reprsInt k then mjoin (dict_get k built) else None)
                         (dict_keys fields);
                  value := SNone |}
      end
  | JList items =>
      Some {| tag := JScalar SNone; children := omap fromInput items; value := SNone |}
  | JScalar a => Some (fromValue a)
  end.

(** ** The operator name table *)

Definition opTable : list (string * string) :=
  [ ("add", "Add"); ("sub", "Sub"); ("mul", "Mul"); ("div", "Div");
    ("mod", "Mod"); ("pow", "Pow"); ("eq", "Eq"); ("ne", "Ne");
    ("lt", "Lt"); ("gt", "Gt"); ("le", "Le"); ("ge", "Ge");
    ("not", "Not"); ("unm", "Unm"); ("concat", "Concat");
    ("and", "And"); ("or", "Or") ].

(** [name in opTable] hashes [name]; the keys are strings, so a scalar of
    another type is never found.  In the [else] branch the message is
    built with [+], which raises [TypeError] unless [name] is a string. *)
Definition _mapOpName (name : scalar) : result string :=
  match name with
  | SStr s =>
      match dict_get s opTable with
      | Some canonical => Ok canonical
      | None => Raise (Exception ("Unknown op name: " +:+ s))
      end
  | _ => Raise TypeError
  end.

(** ** [toDict] *)

(** [self.tag == s] for a string literal [s]. *)
Definition tag_is (t : json) (s : string) : bool :=
  match t with
  | JScalar (SStr s') => String.eqb s' s
  | _ => false
  end.

Definition is_None (a : scalar) : bool :=
  match a with
  | SNone => true
  | _ => false
  end.

(** [self.tag == None] *)
Definition tag_is_None (t : json) : bool :=
  match t with
  | JScalar a => is_None a
  | _ => false
  end.

(** The dict display [{key: v}]: lists and dicts are unhashable. *)
Definition dict_display (key : json) (v : pyval) : result pyval :=
  match key with
  | JScalar a => Ok (PDict [(a, v)])
  | _ => Raise TypeError
  end.

(** [xs[i]] *)
Definition subscript {A : Type} (xs : list A) (i : nat) : result A :=
  match xs !! i with
  | Some x => Ok x
  | None => Raise IndexError
  end.

(** [self.children[i].value] *)
Definition child_value (self : Node) (i : nat) : result scalar :=
  c ← subscript (children self) i; Ok (value c).

(** The body of [toDict].  [enc] is the list of [c.toDict()] for the
    children [c] of [self], in order: [self.children[i].toDict()] is
    [enc[i]] and [list(map(lambda x: x.toDict(), self.children))] runs
    through [enc] (see [toDict_unfold]). *)
Section toDict_body.

Context (self : Node) (enc : list (result pyval)).

Let n : nat := length (children self).

Definition child_toDict (i : nat) : result pyval :=
  r ← subscript enc i; r.

Definition encode_children : result (list pyval) :=
  mapM (fun r : result pyval => r) enc.

(** Lines 147 to 154: the end of the method. *)
Definition generic : result pyval :=
  v ← encode_children;
  if tag_is_None (tag self) then Ok (PList v)
  else dict_display (tag self) (PList v).

Definition toDict_Op : result pyval :=
  if n =? 3 then
    name ← child_value self 2;
    opName ← _mapOpName name;
    c0 ← child_toDict 0;
    c1 ← child_toDict 1;
    Ok (PDict [(SStr opName, PList [c0; c1])])
  else if n =? 2 then
    name ← child_value self 0;
    opName ← _mapOpName name;
    c1 ← child_toDict 1;
    Ok (PDict [(SStr opName, c1)])
  else
    Raise AssertionError.

Definition toDict_Id : result pyval :=
  _ ← assert (n =? 1);
  v ← child_value self 0;
  Ok (PDict [(SStr "Id", PScalar v)]).

Definition toDict_literal : result pyval :=
  _ ← assert (n =? 1);
  v ← child_value self 0;
  dict_display (tag self) (PScalar v).

Definition toDict_Call : result pyval :=
  _ ← assert (1 <=? n);
  argList ← encode_children;
  argList ← match argList with
            | [] => Raise IndexError
            | _ :: rest => Ok rest
            end;
  c0 ← child_toDict 0;
  Ok (PDict [(SStr "Call", PList [c0; PList argList])]).

Definition toDict_Fornum : result pyval :=
  if n =? 4 then
    c0 ← child_toDict 0;
    c1 ← child_toDict 1;
    c2 ← child_toDict 2;
    c3 ← child_toDict 3;
    Ok (PDict [(SStr "Fornum", PList [c0; c1; c2; PScalar SNone; c3])])
  else if n =? 5 then
    generic
  else
    Raise AssertionError.

Definition toDict_Function : result pyval :=
  if n =? 1 then
    c0 ← child_toDict 0;
    Ok (PDict [(SStr "Function", PList [PList []; c0])])
  else
    generic.

(** [int(len(self.children) / 2)] is [n / 2]: the quotient of the float
    division is exact for every length a list can have. *)
Definition toDict_If : result pyval :=
  branchList ← mapM (fun i =>
                       cond ← child_toDict (i * 2);
                       block ← child_toDict (i * 2 + 1);
                       Ok (PList [cond; block]))
                    (seq 0 (n / 2));
  elseBranch ← (if n mod 2 =? 1 then child_toDict (n - 1)
                else Ok (PScalar SNone));
  Ok (PDict [(SStr "If", PList [PList branchList; elseBranch])]).

Definition toDict_Paren : result pyval :=
  _ ← assert (n =? 1);
  child_toDict 0.

Definition toDict_body : result pyval :=
  if negb (is_None (value self)) then Ok (PScalar (value self))
  else if tag_is (tag self) "Op" then toDict_Op
  else if tag_is (tag self) "NameList" || tag_is (tag self) "ExpList"
          || tag_is (tag self) "VarList" then (v ← encode_children; Ok (PList v))
  else if tag_is (tag self) "Id" then toDict_Id
  else if tag_is (tag self) "Number" || tag_is (tag self) "Boolean"
          || tag_is (tag self) "String" then toDict_literal
  else if tag_is (tag self) "False" then Ok (PDict [(SStr "Boolean", PScalar (SBool false))])
  else if tag_is (tag self) "True" then Ok (PDict [(SStr "Boolean", PScalar (SBool true))])
  else if tag_is (tag self) "Call" then toDict_Call
  else if tag_is (tag self) "Fornum" then toDict_Fornum
  else if tag_is (tag self) "Function" then toDict_Function
  else if tag_is (tag self) "If" then toDict_If
  else if tag_is (tag self) "Break" then Ok (PScalar (SStr "Break"))
  else if tag_is (tag self) "Paren" then toDict_Paren
  else generic.

End toDict_body.

Fixpoint toDict (self : Node) : result pyval :=
  toDict_body self (toDict <$> children self).

(** ** The module's last line, without [json.dumps] and [print]

    [Node.fromInput(inAst).toDict()]: on [None] the attribute lookup
    raises [AttributeError]. *)
Definition transform (inAst : json) : result pyval :=
  match fromInput inAst with
  | Some node => toDict node
  | None => Raise AttributeError
  end.

(** ** The node invariant of the data model

    A value is present only in a leaf built from a scalar: such a node has
    no tag and no children.  [fromInput] builds only such nodes, at every
    depth (see [fromInput_node_ok]). *)
Definition node_inv (n : Node) : Prop :=
  value n = SNone ∨ (tag n = JScalar SNone ∧ children n = []).

Fixpoint node_ok (n : Node) : bool :=
  (is_None (value n)
   || (tag_is_None (tag n) && bool_decide (length (children n) = 0)))
  && forallb node_ok (children n).

(** ** Orders of the children of a tagged object *)

(** The children of a tagged object, field by field. *)
Definition children_in_field_order (fields : list (string * json)) : list Node :=
  omap (fun kv : string * json => if reprsInt kv.1 then fromInput kv.2 else None) fields.





(** ** The shape of the canonical names *)

(** First letter in upper case, for the lower-case identifiers of the table. *)
Definition capitalize (s : string) : string :=
  match s with
  | String c rest =>
      let n := nat_of_ascii c in
      String (if (97 <=? n) && (n <=? 122) then ascii_of_nat (n - 32) else c) rest
  | EmptyString => EmptyString
  end.

(** ** Sample nodes and inputs *)

(** Nodes as [fromInput] builds them, and inputs. *)
Definition leaf (v : scalar) : Node := fromValue v.

Definition number_node (z : Z) : Node :=
  {| tag := JScalar (SStr "Number"); children := [leaf (SInt z)]; value := SNone |}.

Definition id_node (name : string) : Node :=
  {| tag := JScalar (SStr "Id"); children := [leaf (SStr name)]; value := SNone |}.

Definition block_node (stmts : list Node) : Node :=
  {| tag := JScalar (SStr "Block"); children := stmts; value := SNone |}.

Definition break_node : Node :=
  {| tag := JScalar (SStr "Break"); children := []; value := SNone |}.

Definition op_add_node : Node :=
  {| tag := JScalar (SStr "Op");
     children := [number_node 1; number_node 2; leaf (SStr "add")];
     value := SNone |}.

Definition op_not_node : Node :=
  {| tag := JScalar (SStr "Op");
     children := [leaf (SStr "not"); leaf (SBool true)];
     value := SNone |}.

Definition op_xor_binary : Node :=
  {| tag := JScalar (SStr "Op");
     children := [number_node 1; number_node 2; leaf (SStr "xor")];
     value := SNone |}.

Definition op_xor_unary : Node :=
  {| tag := JScalar (SStr "Op");
     children := [leaf (SStr "xor"); number_node 1];
     value := SNone |}.

Definition fornum_node (cs : list Node) : Node :=
  {| tag := JScalar (SStr "Fornum"); children := cs; value := SNone |}.

Definition fornum_without_step : Node :=
  fornum_node [id_node "i"; number_node 1; number_node 9; block_node []].

Definition fornum_with_step : Node :=
  fornum_node [id_node "i"; number_node 1; number_node 9; number_node 2; block_node []].

Definition fornum_short : Node :=
  fornum_node [id_node "i"; number_node 1; block_node []].

Definition call_node (cs : list Node) : Node :=
  {| tag := JScalar (SStr "Call"); children := cs; value := SNone |}.

Definition call_f_1_2 : Node :=
  call_node [id_node "f"; number_node 1; number_node 2].

Definition if_node (cs : list Node) : Node :=
  {| tag := JScalar (SStr "If"); children := cs; value := SNone |}.

Definition if_with_else : Node :=
  if_node [leaf (SBool true); break_node; block_node []].



Definition tagless : list (string * json) := [("0", JScalar (SInt 7))].

Definition numeric_tag : json := JObj [("tag", JScalar (SInt 5))].

(** ** The tags with a rule of their own in [toDict] *)

Definition special_tags : list string :=
  ["Op"; "NameList"; "ExpList"; "VarList"; "Id"; "Number"; "Boolean"; "String";
   "False"; "True"; "Call"; "Fornum"; "Function"; "If"; "Break"; "Paren"].

(** The exceptions that [toDict] can raise. *)
Definition toDict_exn (e : exn) : Prop :=
  e = AssertionError ∨ e = TypeError
  ∨ ∃ s, dict_get s opTable = None ∧ e = Exception ("Unknown op name: " +:+ s).

(** ** JSON without objects, as a Python value with [[]] for null *)


(** An object without a "tag" key. *)
Definition tagless_object (j : json) : Prop :=
  ∃ fields, j = JObj fields ∧ dict_get "tag" fields = None.

(** The values of the fields with an integer key, in field order. *)
Definition int_key_values (fields : list (string * json)) : list json :=
  omap (fun kv : string * json => if reprsInt kv.1 then Some kv.2 else None) fields.

(** ** More sample nodes *)

Definition tagged_node (t : string) (cs : list Node) : Node :=
  {| tag := JScalar (SStr t); children := cs; value := SNone |}.

Definition untagged_node (cs : list Node) : Node :=
  {| tag := JScalar SNone; children := cs; value := SNone |}.

(** An operator node with four children: encoding it fails. *)
Definition op_four : Node :=
  tagged_node "Op" [number_node 1; number_node 2; number_node 3; leaf (SStr "add")].



(** * fancy-garbling: lookup tables for base conversion (make_lookup_tables.py)

    [digits] and [digits_for_pos].  Python integers are [Z]; [%] and [//]
    round towards minus infinity, as [Z.modulo] and [Z.div] do.  The
    [while] loop of [digits] is run for [fuel] tests of its condition at
    most; [Unfinished] tells that the loop was still running. *)

Module LookupTables.

Definition bits_per_chunk : Z := 8.

Inductive outcome (A : Type) : Type :=
| Returned (a : A)
| ZeroDivisionError
| Unfinished.
Arguments Returned {A} a.
Arguments ZeroDivisionError {A}.
Arguments Unfinished {A}.

Definition outcome_bind {A B : Type} (o : outcome A) (k : A → outcome B) : outcome B :=
  match o with
  | Returned a => k a
  | ZeroDivisionError => ZeroDivisionError
  | Unfinished => Unfinished
  end.

(** The loop of [digits], entered with the digits [ds] found so far. *)
Fixpoint digits_loop (fuel : nat) (x base : Z) (ds : list Z) : outcome (list Z) :=
  match fuel with
  | O => Unfinished
  | S fuel' =>
      if (x >=? base)%Z then
        if (base =? 0)%Z then ZeroDivisionError
        else
          let d := (x mod base)%Z in
          digits_loop fuel' ((x - d) / base)%Z base (ds ++ [d])
      else Returned (ds ++ [x])
  end.

Definition digits (fuel : nat) (x base : Z) : outcome (list Z) :=
  digits_loop fuel x base [].

(** The first loop of [digits_for_pos], over the values [xs] of [x].  The
    position [pos] is a natural number: the script takes it from
    [range(128 // bits_per_chunk)], and a negative shift count is an
    error in Python. *)
Fixpoint digits_rows (fuel : nat) (pos : nat) (base : Z) (xs : list Z)
    : outcome (list (list Z)) :=
  match xs with
  | [] => Returned []
  | x :: xs' =>
      outcome_bind (digits fuel (Z.shiftl x (bits_per_chunk * Z.of_nat pos)) base)
        (fun d => outcome_bind (digits_rows fuel pos base xs')
                    (fun ds => Returned (d :: ds)))
  end.

(** [while (len(d) < max_ndigits): d.append(0)] *)
Definition pad (max_ndigits : nat) (d : list Z) : list Z :=
  d ++ replicate (max_ndigits - length d) 0%Z.

(** [digits_for_pos]: [max_ndigits] starts at 0 and takes the maximum with
    each length; the second loop pads the lists that [ds] holds. *)
Definition digits_for_pos (fuel : nat) (pos : nat) (base : Z)
    : outcome (nat * list (list Z)) :=
  outcome_bind (digits_rows fuel pos base (seqZ 0 (Z.shiftl 1 bits_per_chunk)))
    (fun ds =>
       let max_ndigits := foldl (fun m d => Nat.max (length d) m) 0 ds in
       Returned (max_ndigits, pad max_ndigits <$> ds)).

(** The number that a list of digits stands for, least significant digit
    first. *)
Definition from_digits (base : Z) (ds : list Z) : Z :=
  foldr (fun d acc => (d + base * acc)%Z) 0%Z ds.

End LookupTables.

(** ** The end-to-end examples *)

Example transform_binary_add :
  transform (JObj [("tag", JScalar (SStr "Op"));
                   ("0", JObj [("tag", JScalar (SStr "Number")); ("0", JScalar (SInt 1))]);
                   ("1", JObj [("tag", JScalar (SStr "Number")); ("0", JScalar (SInt 2))]);
                   ("2", JScalar (SStr "add"))])
  = Ok (PDict [(SStr "Add",
                PList [PDict [(SStr "Number", PScalar (SInt 1))];
                       PDict [(SStr "Number", PScalar (SInt 2))]])]).
Proof. reflexivity. Qed.

Example transform_break :
  transform (JObj [("tag", JScalar (SStr "Break"))]) = Ok (PScalar (SStr "Break")).
Proof. reflexivity. Qed.

Example transform_if :
  transform (JObj [("tag", JScalar (SStr "If"));
                   ("0", JScalar (SBool true));
                   ("1", JObj [("tag", JScalar (SStr "Break"))])])
  = Ok (PDict [(SStr "If",
                PList [PList [PList [PScalar (SBool true); PScalar (SStr "Break")]];
                       PScalar SNone])]).
Proof. reflexivity. Qed.

(** ** Equations of the embedding *)

Lemma mapM_result_cons {A B : Type} (f : A → result B) (x : A) (xs : list A) :
  mapM f (x :: xs) = y ← f x; ys ← mapM f xs; Ok (y :: ys).
Proof. reflexivity. Qed.

Section result_facts.

Context {A B : Type}.

Lemma mapM_result_fmap (f : A → result B) (xs : list A) :
  mapM (fun r : result B => r) (f <$> xs) = mapM f xs.
Proof.
  induction xs as [|x xs IH]; [reflexivity|].
  rewrite fmap_cons, !mapM_result_cons, IH.
  reflexivity.
Qed.

Lemma mapM_result_Ok (f : A → result B) (xs : list A) (ys : list B) :
  Forall2 (fun x y => f x = Ok y) xs ys → mapM f xs = Ok ys.
Proof.
  induction 1 as [|x y xs ys Hxy _ IH]; [reflexivity|].
  rewrite mapM_result_cons, Hxy, IH. reflexivity.
Qed.

Lemma mapM_result_inv (f : A → result B) (xs : list A) (ys : list B) :
  mapM f xs = Ok ys → Forall2 (fun x y => f x = Ok y) xs ys.
Proof.
  revert ys. induction xs as [|x xs IH]; intros ys.
  - intros [= <-]. constructor.
  - rewrite mapM_result_cons.
    destruct (f x) as [y|e] eqn:Hx; [|discriminate].
    destruct (mapM f xs) as [ys'|e]; [|discriminate].
    intros [= <-]. constructor; [exact Hx | apply IH; reflexivity].
Qed.

Lemma subscript_fmap (f : A → B) (xs : list A) (i : nat) :
  subscript (f <$> xs) i = x ← subscript xs i; Ok (f x).
Proof.
  unfold subscript. rewrite list_lookup_fmap.
  destruct (xs !! i); reflexivity.
Qed.

End result_facts.

Lemma toDict_unfold (self : Node) :
  toDict self = toDict_body self (toDict <$> children self).
Proof. destruct self; reflexivity. Qed.

(** [self.children[i].toDict()] *)
Lemma child_toDict_Some (cs : list Node) (i : nat) (c : Node) :
  cs !! i = Some c → child_toDict (toDict <$> cs) i = toDict c.
Proof.
  intros Hc. unfold child_toDict. rewrite subscript_fmap.
  unfold subscript. rewrite Hc. reflexivity.
Qed.

Lemma encode_children_fmap (cs : list Node) :
  encode_children (toDict <$> cs) = mapM toDict cs.
Proof. apply mapM_result_fmap. Qed.

Lemma child_value_Some (self : Node) (i : nat) (c : Node) :
  children self !! i = Some c → child_value self i = Ok (value c).
Proof. intros Hc. unfold child_value, subscript. rewrite Hc. reflexivity. Qed.

Lemma node_inv_tagged (self : Node) (s : string) :
  node_inv self → tag self = JScalar (SStr s) → value self = SNone.
Proof. intros [Hv|[Ht _]] Htag; [exact Hv | congruence]. Qed.

Lemma tag_is_eq (t : json) (s : string) :
  tag_is t s = true ↔ t = JScalar (SStr s).
Proof.
  destruct t as [[]| |]; cbn; try (split; [discriminate | intros [=]]).
  rewrite String.eqb_eq. split; [intros ->; reflexivity | intros [= ->]; reflexivity].
Qed.

(** The dispatch reaches the branch of a string tag; the chain of
    comparisons is decided by computation once the tag is a literal. *)
Ltac dispatch Hinv Htag :=
  rewrite toDict_unfold; unfold toDict_body;
  rewrite (node_inv_tagged _ _ Hinv Htag), Htag; cbn [is_None negb];
  cbn -[toDict toDict_Op toDict_Id toDict_literal toDict_Call toDict_Fornum
        toDict_Function toDict_If toDict_Paren generic encode_children].

(** ** Operator nodes *)

(** Lines 54 to 61, with the order in which the calls are made. *)
Lemma toDict_Op_binary (self c0 c1 c2 : Node) :
  node_inv self → tag self = JScalar (SStr "Op") → children self = [c0; c1; c2] →
  toDict self =
    opName ← _mapOpName (value c2);
    e0 ← toDict c0;
    e1 ← toDict c1;
    Ok (PDict [(SStr opName, PList [e0; e1])]).
Proof.
  intros Hinv Htag Hcs. dispatch Hinv Htag.
  unfold toDict_Op. rewrite Hcs. cbn [length Nat.eqb].
  rewrite (child_value_Some self 2 c2) by (rewrite Hcs; reflexivity).
  rewrite (child_toDict_Some _ 0 c0), (child_toDict_Some _ 1 c1) by reflexivity.
  reflexivity.
Qed.

(** Lines 62 to 66. *)
Lemma toDict_Op_unary (self c0 c1 : Node) :
  node_inv self → tag self = JScalar (SStr "Op") → children self = [c0; c1] →
  toDict self =
    opName ← _mapOpName (value c0);
    e1 ← toDict c1;
    Ok (PDict [(SStr opName, e1)]).
Proof.
  intros Hinv Htag Hcs. dispatch Hinv Htag.
  unfold toDict_Op. rewrite Hcs. cbn [length Nat.eqb].
  rewrite (child_value_Some self 0 c0) by (rewrite Hcs; reflexivity).
  rewrite (child_toDict_Some _ 1 c1) by reflexivity.
  reflexivity.
Qed.

(** C1: an [Op] node with exactly three children encodes to the single-key
    dict from the canonical name of child 2's value to the list of the
    encodings of children 0 and 1; with exactly two children it encodes to
    the single-key dict from the canonical name of child 0's value to the
    encoding of child 1.  Nothing but the number of children selects the
    case. *)
Theorem toDict_Op_by_child_count (self : Node) :
  node_inv self → tag self = JScalar (SStr "Op") →
  (∀ c0 c1 c2 opName e0 e1,
      children self = [c0; c1; c2] →
      _mapOpName (value c2) = Ok opName →
      toDict c0 = Ok e0 → toDict c1 = Ok e1 →
      toDict self = Ok (PDict [(SStr opName, PList [e0; e1])]))
  ∧ (∀ c0 c1 opName e1,
      children self = [c0; c1] →
      _mapOpName (value c0) = Ok opName →
      toDict c1 = Ok e1 →
      toDict self = Ok (PDict [(SStr opName, e1)])).
Proof.
  intros Hinv Htag. split.
  - intros c0 c1 c2 opName e0 e1 Hcs Hop H0 H1.
    rewrite (toDict_Op_binary self c0 c1 c2 Hinv Htag Hcs), Hop, H0, H1.
    reflexivity.
  - intros c0 c1 opName e1 Hcs Hop H1.
    rewrite (toDict_Op_unary self c0 c1 Hinv Htag Hcs), Hop, H1.
    reflexivity.
Qed.

Lemma toDict_Op_by_child_count_witness :
  toDict op_add_node
  = Ok (PDict [(SStr "Add", PList [PDict [(SStr "Number", PScalar (SInt 1))];
                                   PDict [(SStr "Number", PScalar (SInt 2))]])])
  ∧ toDict op_not_node = Ok (PDict [(SStr "Not", PScalar (SBool true))]).
Proof.
  split.
  - apply (proj1 (toDict_Op_by_child_count op_add_node (or_introl eq_refl) eq_refl)
             (number_node 1) (number_node 2) (leaf (SStr "add"))); reflexivity.
  - apply (proj2 (toDict_Op_by_child_count op_not_node (or_introl eq_refl) eq_refl)
             (leaf (SStr "not")) (leaf (SBool true))); reflexivity.
Defined.

(** ** Numeric for loops *)

(** Lines 101 to 110. *)
Lemma toDict_Fornum_4 (self c0 c1 c2 c3 : Node) :
  node_inv self → tag self = JScalar (SStr "Fornum") →
  children self = [c0; c1; c2; c3] →
  toDict self =
    e0 ← toDict c0; e1 ← toDict c1; e2 ← toDict c2; e3 ← toDict c3;
    Ok (PDict [(SStr "Fornum", PList [e0; e1; e2; PScalar SNone; e3])]).
Proof.
  intros Hinv Htag Hcs. dispatch Hinv Htag.
  unfold toDict_Fornum. rewrite Hcs. cbn [length Nat.eqb].
  rewrite (child_toDict_Some _ 0 c0), (child_toDict_Some _ 1 c1),
    (child_toDict_Some _ 2 c2), (child_toDict_Some _ 3 c3) by reflexivity.
  reflexivity.
Qed.

(** Lines 112 to 114, then 147 to 154. *)
Lemma toDict_Fornum_5 (self : Node) :
  node_inv self → tag self = JScalar (SStr "Fornum") →
  length (children self) = 5 →
  toDict self =
    v ← mapM toDict (children self);
    Ok (PDict [(SStr "Fornum", PList v)]).
Proof.
  intros Hinv Htag Hlen. dispatch Hinv Htag.
  unfold toDict_Fornum. rewrite Hlen. cbn [Nat.eqb].
  unfold generic. rewrite encode_children_fmap, Htag. reflexivity.
Qed.

(** Lines 115 and 116. *)
Lemma toDict_Fornum_other (self : Node) :
  node_inv self → tag self = JScalar (SStr "Fornum") →
  length (children self) ≠ 4 → length (children self) ≠ 5 →
  toDict self = Raise AssertionError.
Proof.
  intros Hinv Htag H4 H5. dispatch Hinv Htag.
  unfold toDict_Fornum.
  rewrite (proj2 (Nat.eqb_neq _ _) H4), (proj2 (Nat.eqb_neq _ _) H5).
  reflexivity.
Qed.

(** C3: a [Fornum] node with exactly four children encodes to the dict
    from "Fornum" to the encodings of children 0, 1 and 2, then null, then
    the encoding of child 3; with exactly five children, to the dict from
    "Fornum" to the five encodings in order; with any other number of
    children the assertion fails. *)
Theorem toDict_Fornum_by_child_count (self : Node) :
  node_inv self → tag self = JScalar (SStr "Fornum") →
  (∀ c0 c1 c2 c3 e0 e1 e2 e3,
      children self = [c0; c1; c2; c3] →
      toDict c0 = Ok e0 → toDict c1 = Ok e1 → toDict c2 = Ok e2 → toDict c3 = Ok e3 →
      toDict self = Ok (PDict [(SStr "Fornum", PList [e0; e1; e2; PScalar SNone; e3])]))
  ∧ (∀ c0 c1 c2 c3 c4 e0 e1 e2 e3 e4,
      children self = [c0; c1; c2; c3; c4] →
      toDict c0 = Ok e0 → toDict c1 = Ok e1 → toDict c2 = Ok e2 →
      toDict c3 = Ok e3 → toDict c4 = Ok e4 →
      toDict self = Ok (PDict [(SStr "Fornum", PList [e0; e1; e2; e3; e4])]))
  ∧ (length (children self) ≠ 4 → length (children self) ≠ 5 →
     toDict self = Raise AssertionError).
Proof.
  intros Hinv Htag. split; [|split].
  - intros c0 c1 c2 c3 e0 e1 e2 e3 Hcs H0 H1 H2 H3.
    rewrite (toDict_Fornum_4 self c0 c1 c2 c3 Hinv Htag Hcs), H0, H1, H2, H3.
    reflexivity.
  - intros c0 c1 c2 c3 c4 e0 e1 e2 e3 e4 Hcs H0 H1 H2 H3 H4.
    rewrite (toDict_Fornum_5 self Hinv Htag) by (rewrite Hcs; reflexivity).
    rewrite Hcs, (mapM_result_Ok toDict _ [e0; e1; e2; e3; e4]); [reflexivity|].
    repeat constructor; assumption.
  - apply toDict_Fornum_other; assumption.
Qed.

Lemma toDict_Fornum_by_child_count_witness :
  toDict fornum_without_step
  = Ok (PDict [(SStr "Fornum",
                PList [PDict [(SStr "Id", PScalar (SStr "i"))];
                       PDict [(SStr "Number", PScalar (SInt 1))];
                       PDict [(SStr "Number", PScalar (SInt 9))];
                       PScalar SNone;
                       PDict [(SStr "Block", PList [])]])])
  ∧ toDict fornum_with_step
    = Ok (PDict [(SStr "Fornum",
                  PList [PDict [(SStr "Id", PScalar (SStr "i"))];
                         PDict [(SStr "Number", PScalar (SInt 1))];
                         PDict [(SStr "Number", PScalar (SInt 9))];
                         PDict [(SStr "Number", PScalar (SInt 2))];
                         PDict [(SStr "Block", PList [])]])])
  ∧ toDict fornum_short = Raise AssertionError.
Proof.
  split; [|split].
  - eapply (proj1 (toDict_Fornum_by_child_count fornum_without_step
                     (or_introl eq_refl) eq_refl)); reflexivity.
  - eapply (proj1 (proj2 (toDict_Fornum_by_child_count fornum_with_step
                            (or_introl eq_refl) eq_refl))); reflexivity.
  - apply (proj2 (proj2 (toDict_Fornum_by_child_count fornum_short
                           (or_introl eq_refl) eq_refl))); cbn; lia.
Defined.

(** ** Calls *)

(** Lines 90 to 98: every child is encoded for [argList], the first entry
    is deleted, and the callee is encoded once more for the result. *)
Lemma toDict_Call_eq (self c0 : Node) (rest : list Node) :
  node_inv self → tag self = JScalar (SStr "Call") → children self = c0 :: rest →
  toDict self =
    argList ← mapM toDict (c0 :: rest);
    argList ← match argList with
              | [] => Raise IndexError
              | _ :: args => Ok args
              end;
    e0 ← toDict c0;
    Ok (PDict [(SStr "Call", PList [e0; PList argList])]).
Proof.
  intros Hinv Htag Hcs. dispatch Hinv Htag.
  unfold toDict_Call. rewrite Hcs, encode_children_fmap.
  rewrite (child_toDict_Some _ 0 c0) by reflexivity.
  reflexivity.
Qed.

(** C4: a [Call] node with n >= 1 children encodes to the dict from "Call"
    to the pair of the encoding of child 0 and the argument list; the
    argument list holds the encodings of children 1 to n-1 in their order,
    n-1 entries, the callee not among them. *)
Theorem toDict_Call_arguments (self c0 : Node) (rest : list Node)
    (e0 : pyval) (args : list pyval) :
  node_inv self → tag self = JScalar (SStr "Call") →
  children self = c0 :: rest →
  toDict c0 = Ok e0 →
  Forall2 (fun c e => toDict c = Ok e) rest args →
  toDict self = Ok (PDict [(SStr "Call", PList [e0; PList args])])
  ∧ length args = length (children self) - 1.
Proof.
  intros Hinv Htag Hcs H0 Hrest. split.
  - rewrite (toDict_Call_eq self c0 rest Hinv Htag Hcs).
    rewrite (mapM_result_Ok toDict (c0 :: rest) (e0 :: args))
      by (constructor; assumption).
    cbn. rewrite H0. reflexivity.
  - rewrite Hcs. cbn. rewrite Nat.sub_0_r. symmetry.
    eapply Forall2_length, Hrest.
Qed.

Lemma toDict_Call_arguments_witness :
  toDict call_f_1_2
  = Ok (PDict [(SStr "Call",
                PList [PDict [(SStr "Id", PScalar (SStr "f"))];
                       PList [PDict [(SStr "Number", PScalar (SInt 1))];
                              PDict [(SStr "Number", PScalar (SInt 2))]]])])
  ∧ length [PDict [(SStr "Number", PScalar (SInt 1))];
            PDict [(SStr "Number", PScalar (SInt 2))]]
    = length (children call_f_1_2) - 1.
Proof.
  apply (toDict_Call_arguments call_f_1_2 (id_node "f")
           [number_node 1; number_node 2]);
    [left; reflexivity | reflexivity | reflexivity | reflexivity |].
  repeat constructor.
Defined.

(** ** The operator name table *)

Lemma _mapOpName_unknown (s : string) :
  dict_get s opTable = None →
  _mapOpName (SStr s) = Raise (Exception ("Unknown op name: " +:+ s)).
Proof. intros Hs. unfold _mapOpName. rewrite Hs. reflexivity. Qed.

(** C8: an [Op] node whose operator child holds a string that is not in the
    table fails to encode with the exception whose message is
    "Unknown op name: " followed by that string, in the binary and in the
    unary shape, whatever the operands are; every identifier of the table
    resolves to its entry, which is the identifier with its first letter in
    upper case. *)
Theorem _mapOpName_unknown_or_canonical :
  (∀ self c0 c1 c2 s,
      node_inv self → tag self = JScalar (SStr "Op") →
      children self = [c0; c1; c2] → value c2 = SStr s →
      dict_get s opTable = None →
      toDict self = Raise (Exception ("Unknown op name: " +:+ s)))
  ∧ (∀ self c0 c1 s,
      node_inv self → tag self = JScalar (SStr "Op") →
      children self = [c0; c1] → value c0 = SStr s →
      dict_get s opTable = None →
      toDict self = Raise (Exception ("Unknown op name: " +:+ s)))
  ∧ (∀ raw canonical,
      (raw, canonical) ∈ opTable →
      _mapOpName (SStr raw) = Ok canonical ∧ canonical = capitalize raw).
Proof.
  split; [|split].
  - intros self c0 c1 c2 s Hinv Htag Hcs Hv Hs.
    rewrite (toDict_Op_binary self c0 c1 c2 Hinv Htag Hcs), Hv.
    rewrite (_mapOpName_unknown s Hs). reflexivity.
  - intros self c0 c1 s Hinv Htag Hcs Hv Hs.
    rewrite (toDict_Op_unary self c0 c1 Hinv Htag Hcs), Hv.
    rewrite (_mapOpName_unknown s Hs). reflexivity.
  - intros raw canonical Hin. unfold opTable in Hin.
    repeat (apply elem_of_cons in Hin as [[= -> ->]|Hin]; [split; reflexivity|]).
    apply elem_of_nil in Hin as [].
Qed.

Lemma _mapOpName_unknown_or_canonical_witness :
  toDict op_xor_binary = Raise (Exception "Unknown op name: xor")
  ∧ toDict op_xor_unary = Raise (Exception "Unknown op name: xor")
  ∧ _mapOpName (SStr "concat") = Ok "Concat".
Proof.
  destruct _mapOpName_unknown_or_canonical as (Hbin & Hun & Htab).
  split; [|split].
  - apply (Hbin op_xor_binary (number_node 1) (number_node 2) (leaf (SStr "xor")) "xor");
      [left; reflexivity | reflexivity ..].
  - apply (Hun op_xor_unary (leaf (SStr "xor")) (number_node 1) "xor");
      [left; reflexivity | reflexivity ..].
  - apply (Htab "concat" "Concat"). unfold opTable. repeat constructor.
Defined.

(** ** The tree builder *)

Lemma dict_get_fmap {V W : Type} (f : V → W) (k : string) (d : list (string * V)) :
  dict_get k ((fun kv : string * V => let '(k', v) := kv in (k', f v)) <$> d)
  = f <$> dict_get k d.
Proof.
  induction d as [|[k' v] d IH]; [reflexivity|].
  cbn. destruct (String.eqb k k'); [reflexivity | exact IH].
Qed.

Lemma omap_ext_elem_of {A B : Type} (f g : A → option B) (l : list A) :
  (∀ x, x ∈ l → f x = g x) → omap f l = omap g l.
Proof.
  intros Hfg. apply list_omap_ext, Forall_Forall2_diag, list.Forall_forall, Hfg.
Qed.

(** Lines 29 to 38 as they are written: the loop runs over the keys and
    subscripts the dict. *)
Lemma fromInput_dict (fields : list (string * json)) :
  fromInput (JObj fields) =
    match dict_get "tag" fields with
    | None => None
    | Some t =>
        Some {| tag := t;
                children :=
                  omap (fun k => if reprsInt k
                                 then v ← dict_get k fields; fromInput v
                                 else None)
                       (dict_keys fields);
                value := SNone |}
    end.
Proof.
  cbn. destruct (dict_get "tag" fields) as [t|]; [|reflexivity].
  do 2 f_equal. apply omap_ext_elem_of. intros k _.
  destruct (reprsInt k); [|reflexivity].
  rewrite dict_get_fmap. destruct (dict_get k fields); reflexivity.
Qed.

(** The keys of a dict are distinct, so subscripting with the key of a
    field gives the value of that field. *)
Lemma dict_get_elem_of {V : Type} (k : string) (v : V) (d : list (string * V)) :
  NoDup (dict_keys d) → (k, v) ∈ d → dict_get k d = Some v.
Proof.
  unfold dict_keys. induction d as [|[k' v'] d IH]; intros Hnd Hin.
  - apply elem_of_nil in Hin as [].
  - rewrite fmap_cons in Hnd. apply list.NoDup_cons in Hnd as [Hk' Hnd].
    cbn. apply elem_of_cons in Hin as [[= -> ->]|Hin].
    + rewrite String.eqb_refl. reflexivity.
    + destruct (String.eqb k k') eqn:Heq; [|apply IH; assumption].
      apply String.eqb_eq in Heq as ->. exfalso. apply Hk'.
      apply (list_elem_of_fmap_2 fst d (k', v)) in Hin. exact Hin.
Qed.

Lemma fromInput_dict_fields (fields : list (string * json)) (t : json) :
  NoDup (dict_keys fields) → dict_get "tag" fields = Some t →
  fromInput (JObj fields)
  = Some {| tag := t; children := children_in_field_order fields; value := SNone |}.
Proof.
  intros Hnd Htag. rewrite fromInput_dict, Htag. do 2 f_equal.
  unfold children_in_field_order, dict_keys.
  apply list_omap_ext, Forall2_fmap_l, Forall_Forall2_diag, list.Forall_forall.
  intros [k v] Hin. cbn. destruct (reprsInt k); [|reflexivity].
  rewrite (dict_get_elem_of k v fields Hnd Hin). reflexivity.
Qed.

(** The key "tag" is never the key of a child. *)
Lemma reprsInt_tag : reprsInt "tag" = false.
Proof. reflexivity. Qed.

Lemma fromInput_without_tag (fields : list (string * json)) :
  dict_get "tag" fields = None → fromInput (JObj fields) = None.
Proof. intros Htag. rewrite fromInput_dict, Htag. reflexivity. Qed.

(** *** Order of the children *)






(** *** Objects without a tag *)




(** ** Scalars *)

(** C7, as stated, fails on null: the leaf built from it has no value to
    return and is encoded by the last rule, as an untagged node without
    children. *)
Lemma transform_null_counterexample :
  fromInput (JScalar SNone) = Some (leaf SNone)
  ∧ transform (JScalar SNone) = Ok (PList [])
  ∧ transform (JScalar SNone) ≠ Ok (PScalar SNone).
Proof. split; [reflexivity|]. split; [reflexivity | discriminate]. Qed.

(** C7, amended: every scalar is built into a leaf that holds it as its
    value and has no children; when the scalar is not null, a node with
    that value encodes to the scalar whatever its tag and children are,
    and the transform maps the scalar to itself. *)
Theorem transform_scalar (a : scalar) :
  fromInput (JScalar a) = Some {| tag := JScalar SNone; children := []; value := a |}
  ∧ (a ≠ SNone →
     (∀ t cs, toDict {| tag := t; children := cs; value := a |} = Ok (PScalar a))
     ∧ transform (JScalar a) = Ok (PScalar a)).
Proof.
  split; [reflexivity|]. intros Ha.
  assert (∀ t cs, toDict {| tag := t; children := cs; value := a |} = Ok (PScalar a))
    as Hleaf.
  { intros t cs. rewrite toDict_unfold. unfold toDict_body. cbn [value].
    destruct a; [contradiction | reflexivity ..]. }
  split; [exact Hleaf|]. apply Hleaf.
Qed.

Lemma transform_scalar_witness :
  (∀ t cs, toDict {| tag := t; children := cs; value := SBool false |}
           = Ok (PScalar (SBool false)))
  ∧ transform (JScalar (SBool false)) = Ok (PScalar (SBool false)).
Proof.
  apply (proj2 (transform_scalar (SBool false))). discriminate.
Defined.

(** ** Tags that are not strings *)

(** C9, as stated, fails: an object whose tag is the number 5 is built
    into a node and encoded by the last rule. *)
Lemma transform_non_string_tag_counterexample :
  transform numeric_tag = Ok (PDict [(SInt 5, PList [])])
  ∧ ¬ ∃ e, transform numeric_tag = Raise e.
Proof. split; [reflexivity|]. intros [e He]. discriminate He. Qed.

Lemma tag_is_non_string (t : json) (s : string) :
  (∀ s', t ≠ JScalar (SStr s')) → tag_is t s = false.
Proof.
  intros Ht. destruct (tag_is t s) eqn:Heq; [|reflexivity].
  apply tag_is_eq in Heq. destruct (Ht s Heq).
Qed.

(** C9, amended: an object whose tag is present and is not a string is
    built into a node with that tag, without any error.  Its encoding
    encodes the children and then follows the last rule: the list itself
    for a null tag, the dict from the tag to the list for a number or a
    boolean, and [TypeError] for a list or an object, which cannot be a
    key. *)
Theorem transform_non_string_tag (fields : list (string * json)) (t : json) :
  dict_get "tag" fields = Some t → (∀ s, t ≠ JScalar (SStr s)) →
  ∃ node,
    fromInput (JObj fields) = Some node
    ∧ tag node = t ∧ value node = SNone
    ∧ transform (JObj fields) =
        v ← mapM toDict (children node);
        match t with
        | JScalar SNone => Ok (PList v)
        | JScalar a => Ok (PDict [(a, PList v)])
        | _ => Raise TypeError
        end.
Proof.
  intros Htag Hns. unfold transform. rewrite fromInput_dict, Htag.
  eexists. split; [reflexivity|]. split; [reflexivity|]. split; [reflexivity|].
  rewrite toDict_unfold. unfold toDict_body. cbn [value tag is_None negb].
  rewrite !(tag_is_non_string t _ Hns). cbn [orb].
  unfold generic. rewrite encode_children_fmap. cbn [tag children].
  destruct t as [[]| |]; reflexivity.
Qed.

Lemma transform_non_string_tag_witness :
  ∃ node,
    fromInput numeric_tag = Some node
    ∧ tag node = JScalar (SInt 5) ∧ value node = SNone
    ∧ transform numeric_tag =
        v ← mapM toDict (children node); Ok (PDict [(SInt 5, PList v)]).
Proof.
  apply (transform_non_string_tag [("tag", JScalar (SInt 5))] (JScalar (SInt 5)));
    [reflexivity | discriminate].
Defined.

(** ** A root without a tag *)

(** C10: when the input itself is an object without a "tag" field,
    [fromInput] returns [None] and the call of [toDict] on it raises: the
    transform produces no output. *)
Theorem transform_root_without_tag (fields : list (string * json)) :
  dict_get "tag" fields = None →
  fromInput (JObj fields) = None
  ∧ transform (JObj fields) = Raise AttributeError.
Proof.
  intros Htag. pose proof (fromInput_without_tag fields Htag) as Hnone.
  split; [exact Hnone|]. unfold transform. rewrite Hnone. reflexivity.
Qed.

Lemma transform_root_without_tag_witness :
  fromInput (JObj tagless) = None
  ∧ transform (JObj tagless) = Raise AttributeError.
Proof. apply (transform_root_without_tag tagless). reflexivity. Defined.

(** ** If chains *)

Lemma half_of_length (n k : nat) : n = 2 * k ∨ n = 2 * k + 1 → n / 2 = k.
Proof.
  intros [->| ->]; symmetry.
  - apply (Nat.div_unique _ 2 k 0); lia.
  - apply (Nat.div_unique _ 2 k 1); lia.
Qed.

Lemma parity_of_length (n k : nat) :
  (n = 2 * k → n mod 2 = 0) ∧ (n = 2 * k + 1 → n mod 2 = 1).
Proof.
  split; intros ->; symmetry.
  - apply (Nat.mod_unique _ 2 k 0); lia.
  - apply (Nat.mod_unique _ 2 k 1); lia.
Qed.

Lemma Forall_Ok_Forall2 (cs : list Node) :
  Forall (fun c => ∃ e, toDict c = Ok e) cs →
  ∃ encs, Forall2 (fun c e => toDict c = Ok e) cs encs.
Proof.
  induction 1 as [|c cs [e He] _ [encs IH]].
  - exists []. constructor.
  - exists (e :: encs). constructor; assumption.
Qed.

Lemma child_toDict_Ok (cs : list Node) (encs : list pyval) (i : nat) (e : pyval) :
  Forall2 (fun c e => toDict c = Ok e) cs encs →
  encs !! i = Some e →
  ∃ c, cs !! i = Some c ∧ toDict c = Ok e
       ∧ child_toDict (toDict <$> cs) i = Ok e.
Proof.
  intros Hall He.
  destruct (Forall2_lookup_r _ _ _ _ _ Hall He) as (c & Hc & Hce).
  exists c. split; [exact Hc|]. split; [exact Hce|].
  rewrite (child_toDict_Some cs i c Hc). exact Hce.
Qed.

(** Lines 126 to 140. *)
Lemma toDict_If_eq (self : Node) :
  node_inv self → tag self = JScalar (SStr "If") →
  toDict self = toDict_If self (toDict <$> children self).
Proof. intros Hinv Htag. dispatch Hinv Htag. reflexivity. Qed.

(** C2: an [If] node whose 2k or 2k+1 children all encode is encoded to
    the dict from "If" to the pair of the branch list and the else branch;
    the branch list has k entries, entry i being the pair of the encodings
    of children 2i and 2i+1; the else branch is null for 2k children and
    the encoding of child 2k for 2k+1 children. *)
Theorem toDict_If_branches (self : Node) (k : nat) :
  node_inv self → tag self = JScalar (SStr "If") →
  Forall (fun c => ∃ e, toDict c = Ok e) (children self) →
  length (children self) = 2 * k ∨ length (children self) = 2 * k + 1 →
  ∃ branchList elseBranch,
    toDict self = Ok (PDict [(SStr "If", PList [PList branchList; elseBranch])])
    ∧ length branchList = k
    ∧ (∀ i, i < k →
         ∃ cond block e e',
           children self !! (2 * i) = Some cond
           ∧ children self !! (2 * i + 1) = Some block
           ∧ toDict cond = Ok e ∧ toDict block = Ok e'
           ∧ branchList !! i = Some (PList [e; e']))
    ∧ (length (children self) = 2 * k → elseBranch = PScalar SNone)
    ∧ (length (children self) = 2 * k + 1 →
       ∃ last, children self !! (2 * k) = Some last ∧ toDict last = Ok elseBranch).
Proof.
  intros Hinv Htag Hall Hlen.
  destruct (Forall_Ok_Forall2 _ Hall) as [encs Hencs].
  pose proof (Forall2_length _ _ _ Hencs) as Hlen'.
  set (enc_at := fun i => default (PScalar SNone) (encs !! i)).
  assert (∀ i, i < length (children self) → encs !! i = Some (enc_at i)) as Hat.
  { intros i Hi. unfold enc_at.
    destruct (lookup_lt_is_Some_2 encs i) as [e He]; [lia|]. rewrite He. reflexivity. }
  set (pair_at := fun i => PList [enc_at (i * 2); enc_at (i * 2 + 1)]).
  pose proof (half_of_length _ _ Hlen) as Hdiv.
  destruct (parity_of_length (length (children self)) k) as [Hmod0 Hmod1].
  assert (mapM (fun i =>
                  cond ← child_toDict (toDict <$> children self) (i * 2);
                  block ← child_toDict (toDict <$> children self) (i * 2 + 1);
                  Ok (PList [cond; block])) (seq 0 k)
          = Ok (pair_at <$> seq 0 k)) as Hbranches.
  { apply mapM_result_Ok, Forall2_fmap_r, Forall_Forall2_diag, list.Forall_forall.
    intros i Hi. apply elem_of_seq in Hi.
    destruct (child_toDict_Ok _ _ (i * 2) _ Hencs (Hat (i * 2) ltac:(lia))) as (_ & _ & _ & ->).
    destruct (child_toDict_Ok _ _ (i * 2 + 1) _ Hencs (Hat (i * 2 + 1) ltac:(lia))) as (_ & _ & _ & ->).
    reflexivity. }
  exists (pair_at <$> seq 0 k).
  exists (if length (children self) mod 2 =? 1 then enc_at (2 * k) else PScalar SNone).
  split; [|split; [|split; [|split]]].
  - rewrite (toDict_If_eq self Hinv Htag). unfold toDict_If.
    rewrite Hdiv, Hbranches. cbn [mbind result_bind].
    destruct (length (children self) mod 2 =? 1) eqn:Hodd; [|reflexivity].
    apply Nat.eqb_eq in Hodd.
    assert (length (children self) = 2 * k + 1) as Hn.
    { destruct Hlen as [Hn|Hn]; [rewrite (Hmod0 Hn) in Hodd; discriminate | exact Hn]. }
    replace (length (children self) - 1) with (2 * k) by lia.
    destruct (child_toDict_Ok _ _ (2 * k) _ Hencs (Hat (2 * k) ltac:(lia))) as (_ & _ & _ & ->).
    reflexivity.
  - rewrite length_fmap, length_seq. reflexivity.
  - intros i Hi.
    destruct (child_toDict_Ok _ _ (2 * i) _ Hencs (Hat (2 * i) ltac:(lia)))
      as (cond & Hcond & Hce & _).
    destruct (child_toDict_Ok _ _ (2 * i + 1) _ Hencs (Hat (2 * i + 1) ltac:(lia)))
      as (block & Hblock & Hbe & _).
    exists cond, block, (enc_at (2 * i)), (enc_at (2 * i + 1)).
    repeat (split; [assumption|]).
    rewrite list_lookup_fmap, lookup_seq_lt by exact Hi.
    cbn. unfold pair_at. replace (i * 2) with (2 * i) by lia. reflexivity.
  - intros Heven. rewrite (Hmod0 Heven). reflexivity.
  - intros Hodd. rewrite (Hmod1 Hodd). cbn [Nat.eqb].
    destruct (child_toDict_Ok _ _ (2 * k) _ Hencs (Hat (2 * k) ltac:(lia)))
      as (last & Hlast & Hle & _).
    exists last. split; assumption.
Qed.

Lemma toDict_If_branches_witness :
  ∃ branchList elseBranch,
    toDict if_with_else
    = Ok (PDict [(SStr "If", PList [PList branchList; elseBranch])])
    ∧ length branchList = 1
    ∧ (∀ i, i < 1 →
         ∃ cond block e e',
           children if_with_else !! (2 * i) = Some cond
           ∧ children if_with_else !! (2 * i + 1) = Some block
           ∧ toDict cond = Ok e ∧ toDict block = Ok e'
           ∧ branchList !! i = Some (PList [e; e']))
    ∧ (length (children if_with_else) = 2 * 1 → elseBranch = PScalar SNone)
    ∧ (length (children if_with_else) = 2 * 1 + 1 →
       ∃ last, children if_with_else !! (2 * 1) = Some last
               ∧ toDict last = Ok elseBranch).
Proof.
  apply (toDict_If_branches if_with_else 1);
    [left; reflexivity | reflexivity | | right; reflexivity].
  repeat constructor; eexists; reflexivity.
Defined.

Example toDict_if_with_else :
  toDict if_with_else
  = Ok (PDict [(SStr "If",
                PList [PList [PList [PScalar (SBool true); PScalar (SStr "Break")]];
                       PDict [(SStr "Block", PList [])]])]).
Proof. reflexivity. Qed.

(** ** The builder establishes the node invariant *)

Lemma json_nested_ind (P : json → Prop) :
  (∀ a, P (JScalar a)) →
  (∀ items, Forall P items → P (JList items)) →
  (∀ fields, Forall (fun kv : string * json => P kv.2) fields → P (JObj fields)) →
  ∀ j, P j.
Proof.
  intros Hscalar Hlist Hobj. fix IH 1. intros [a|items|fields].
  - apply Hscalar.
  - apply Hlist. induction items as [|j items IHitems]; constructor;
      [apply IH | exact IHitems].
  - apply Hobj. induction fields as [|[k v] fields IHfields]; constructor;
      [apply IH | exact IHfields].
Qed.

Lemma node_ok_inv (n : Node) : node_ok n = true → node_inv n.
Proof.
  destruct n as [t cs v]. cbn. intros Hok.
  apply andb_prop in Hok as [Hok _]. apply orb_prop in Hok as [Hv|Hleaf].
  - left. cbn. destruct v; [reflexivity | discriminate ..].
  - right. cbn. apply andb_prop in Hleaf as [Ht Hcs].
    apply bool_decide_eq_true in Hcs. split.
    + destruct t as [[]| |]; [reflexivity | discriminate ..].
    + destruct cs; [reflexivity | discriminate].
Qed.

Lemma forallb_node_ok_omap {A : Type} (f : A → option Node) (l : list A) :
  (∀ x n, x ∈ l → f x = Some n → node_ok n = true) →
  forallb node_ok (omap f l) = true.
Proof.
  induction l as [|x l IH]; intros Hall; [reflexivity|].
  cbn. destruct (f x) as [n|] eqn:Hfx.
  - cbn [forallb]. rewrite (Hall x n (list_elem_of_here _ _) Hfx).
    apply IH. intros y m Hy. apply Hall. apply list_elem_of_further, Hy.
  - apply IH. intros y m Hy. apply Hall. apply list_elem_of_further, Hy.
Qed.

Lemma dict_get_Some_elem_of {V : Type} (k : string) (v : V) (d : list (string * V)) :
  dict_get k d = Some v → (k, v) ∈ d.
Proof.
  induction d as [|[k' v'] d IH]; [discriminate|].
  cbn. destruct (String.eqb k k') eqn:Heq.
  - apply String.eqb_eq in Heq as ->. intros [= ->]. apply list_elem_of_here.
  - intros Hd. apply list_elem_of_further, IH, Hd.
Qed.

(** Every node that [fromInput] returns satisfies [node_ok], and so does
    every node below it. *)
Lemma fromInput_node_ok (inNode : json) (n : Node) :
  fromInput inNode = Some n → node_ok n = true.
Proof.
  revert n. induction inNode as [a|items IH|fields IH] using json_nested_ind; intros n.
  - intros [= <-]. destruct a; reflexivity.
  - intros [= <-]. cbn -[omap]. apply forallb_node_ok_omap.
    intros j m Hj. rewrite list.Forall_forall in IH. apply (IH j Hj).
  - rewrite fromInput_dict. destruct (dict_get "tag" fields) as [t|]; [|discriminate].
    intros [= <-]. cbn -[omap]. apply forallb_node_ok_omap.
    intros k m _. destruct (reprsInt k); [|discriminate].
    destruct (dict_get k fields) as [v|] eqn:Hk; [|discriminate].
    apply dict_get_Some_elem_of in Hk. rewrite list.Forall_forall in IH.
    apply (IH (k, v) Hk).
Qed.

Corollary fromInput_node_inv (inNode : json) (n : Node) :
  fromInput inNode = Some n → node_inv n.
Proof. intros Hn. apply node_ok_inv, (fromInput_node_ok inNode n Hn). Qed.

(** ** The other rules of [toDict] *)

(** Membership in a list of literals, case by case. *)
Ltac each_member H :=
  repeat (apply elem_of_cons in H as [->|H]); [.. | apply elem_of_nil in H as []].

(** X1: the arity checks.  An [Op] node whose number of children is
    neither 2 nor 3, a [Call] node without children, and an [Id],
    [Number], [Boolean], [String] or [Paren] node whose number of children
    is not 1 fail with [AssertionError], whatever the children are. *)
Theorem toDict_shape_violations (self : Node) :
  node_inv self →
  (tag self = JScalar (SStr "Op") →
   length (children self) ≠ 2 → length (children self) ≠ 3 →
   toDict self = Raise AssertionError)
  ∧ (tag self = JScalar (SStr "Call") → children self = [] →
     toDict self = Raise AssertionError)
  ∧ (∀ t, t ∈ ["Id"; "Number"; "Boolean"; "String"; "Paren"] →
          tag self = JScalar (SStr t) → length (children self) ≠ 1 →
          toDict self = Raise AssertionError).
Proof.
  intros Hinv. split; [|split].
  - intros Htag H2 H3. dispatch Hinv Htag. unfold toDict_Op.
    rewrite (proj2 (Nat.eqb_neq _ _) H2), (proj2 (Nat.eqb_neq _ _) H3).
    reflexivity.
  - intros Htag Hcs. dispatch Hinv Htag. unfold toDict_Call.
    rewrite Hcs. reflexivity.
  - intros t Ht Htag H1. each_member Ht; dispatch Hinv Htag;
      unfold toDict_Id, toDict_literal, toDict_Paren;
      rewrite (proj2 (Nat.eqb_neq _ _) H1); reflexivity.
Qed.

Lemma toDict_shape_violations_witness :
  toDict op_four = Raise AssertionError
  ∧ toDict (call_node []) = Raise AssertionError
  ∧ toDict (tagged_node "Paren" []) = Raise AssertionError.
Proof.
  split; [|split].
  - apply (proj1 (toDict_shape_violations op_four (or_introl eq_refl)));
      [reflexivity | cbn; lia | cbn; lia].
  - apply (proj1 (proj2 (toDict_shape_violations (call_node []) (or_introl eq_refl))));
      reflexivity.
  - apply (proj2 (proj2 (toDict_shape_violations (tagged_node "Paren" [])
                           (or_introl eq_refl))) "Paren");
      [repeat constructor | reflexivity | cbn; lia].
Defined.

(** X2: a [NameList], [ExpList] or [VarList] node encodes to the list of
    the encodings of its children, exactly as the node without a tag and
    with the same children does: the tag leaves no trace in the output. *)
Theorem toDict_list_tags (self : Node) (t : string) :
  node_inv self → t ∈ ["NameList"; "ExpList"; "VarList"] →
  tag self = JScalar (SStr t) →
  toDict self = (v ← mapM toDict (children self); Ok (PList v))
  ∧ toDict self = toDict (untagged_node (children self)).
Proof.
  intros Hinv Ht Htag.
  assert (toDict self = (v ← mapM toDict (children self); Ok (PList v))) as Heq.
  { each_member Ht; dispatch Hinv Htag; rewrite encode_children_fmap; reflexivity. }
  split; [exact Heq|]. rewrite Heq, (toDict_unfold (untagged_node _)).
  unfold toDict_body, generic. cbn -[mapM]. rewrite encode_children_fmap.
  reflexivity.
Qed.

Lemma toDict_list_tags_witness :
  toDict (tagged_node "ExpList" [number_node 1; number_node 2])
  = (v ← mapM toDict [number_node 1; number_node 2]; Ok (PList v))
  ∧ toDict (tagged_node "ExpList" [number_node 1; number_node 2])
    = toDict (untagged_node [number_node 1; number_node 2]).
Proof.
  apply (toDict_list_tags (tagged_node "ExpList" [number_node 1; number_node 2])
           "ExpList"); [left; reflexivity | repeat constructor | reflexivity].
Defined.

(** X3: an [Id], [Number], [Boolean] or [String] node with exactly one
    child encodes to the dict from its tag to the [value] attribute of the
    child.  The child is not encoded: its tag and its own children play no
    part, and a child that is not a leaf gives null. *)
Theorem toDict_literal_raw_value (self c : Node) (t : string) :
  node_inv self → t ∈ ["Id"; "Number"; "Boolean"; "String"] →
  tag self = JScalar (SStr t) → children self = [c] →
  toDict self = Ok (PDict [(SStr t, PScalar (value c))]).
Proof.
  intros Hinv Ht Htag Hcs.
  each_member Ht; dispatch Hinv Htag; unfold toDict_Id, toDict_literal;
    rewrite (child_value_Some self 0 c) by (rewrite Hcs; reflexivity);
    rewrite Hcs, ?Htag; reflexivity.
Qed.

Lemma toDict_literal_raw_value_witness :
  toDict (tagged_node "Id" [op_four]) = Ok (PDict [(SStr "Id", PScalar SNone)]).
Proof.
  apply (toDict_literal_raw_value (tagged_node "Id" [op_four]) op_four "Id");
    [left; reflexivity | repeat constructor | reflexivity | reflexivity].
Defined.

(** X4: a [False], [True] or [Break] node encodes to a constant: the
    children are never looked at, so the encoding succeeds even when a
    child could not be encoded. *)
Theorem toDict_constants (self : Node) :
  node_inv self →
  (tag self = JScalar (SStr "False") →
   toDict self = Ok (PDict [(SStr "Boolean", PScalar (SBool false))]))
  ∧ (tag self = JScalar (SStr "True") →
     toDict self = Ok (PDict [(SStr "Boolean", PScalar (SBool true))]))
  ∧ (tag self = JScalar (SStr "Break") →
     toDict self = Ok (PScalar (SStr "Break"))).
Proof.
  intros Hinv. split; [|split]; intros Htag; dispatch Hinv Htag; reflexivity.
Qed.

Lemma toDict_constants_witness :
  toDict (tagged_node "False" [op_four])
  = Ok (PDict [(SStr "Boolean", PScalar (SBool false))])
  ∧ toDict (tagged_node "True" [op_four])
    = Ok (PDict [(SStr "Boolean", PScalar (SBool true))])
  ∧ toDict (tagged_node "Break" [op_four]) = Ok (PScalar (SStr "Break")).
Proof.
  split; [|split].
  - apply (proj1 (toDict_constants (tagged_node "False" [op_four]) (or_introl eq_refl))).
    reflexivity.
  - apply (proj1 (proj2 (toDict_constants (tagged_node "True" [op_four])
                           (or_introl eq_refl)))).
    reflexivity.
  - apply (proj2 (proj2 (toDict_constants (tagged_node "Break" [op_four])
                           (or_introl eq_refl)))).
    reflexivity.
Defined.

(** X5: a [Function] node with exactly one child encodes to the dict
    from "Function" to the pair of the empty list and the encoding of the
    child; with any other number of children the last rule applies and
    the dict holds the list of the encodings of all the children. *)
Theorem toDict_Function_cases (self : Node) :
  node_inv self → tag self = JScalar (SStr "Function") →
  (∀ c, children self = [c] →
        toDict self = (e ← toDict c; Ok (PDict [(SStr "Function", PList [PList []; e])])))
  ∧ (length (children self) ≠ 1 →
     toDict self = (v ← mapM toDict (children self);
                    Ok (PDict [(SStr "Function", PList v)]))).
Proof.
  intros Hinv Htag. split.
  - intros c Hcs. dispatch Hinv Htag. unfold toDict_Function. rewrite Hcs.
    rewrite (child_toDict_Some _ 0 c) by reflexivity. reflexivity.
  - intros H1. dispatch Hinv Htag. unfold toDict_Function, generic.
    rewrite (proj2 (Nat.eqb_neq _ _) H1), encode_children_fmap, Htag.
    reflexivity.
Qed.

Lemma toDict_Function_cases_witness :
  toDict (tagged_node "Function" [block_node []])
  = Ok (PDict [(SStr "Function", PList [PList []; PDict [(SStr "Block", PList [])]])])
  ∧ toDict (tagged_node "Function" [tagged_node "NameList" [id_node "x"]; block_node []])
    = Ok (PDict [(SStr "Function",
                  PList [PList [PDict [(SStr "Id", PScalar (SStr "x"))]];
                         PDict [(SStr "Block", PList [])]])]).
Proof.
  split.
  - apply (proj1 (toDict_Function_cases (tagged_node "Function" [block_node []])
                    (or_introl eq_refl) eq_refl) (block_node [])).
    reflexivity.
  - apply (proj2 (toDict_Function_cases
                    (tagged_node "Function"
                       [tagged_node "NameList" [id_node "x"]; block_node []])
                    (or_introl eq_refl) eq_refl)).
    cbn; lia.
Defined.

(** X6: a [Paren] node with exactly one child has the outcome of its
    child, result or exception; two nested [Paren] nodes collapse twice. *)
Theorem toDict_Paren_transparent (self c : Node) :
  node_inv self → tag self = JScalar (SStr "Paren") → children self = [c] →
  toDict self = toDict c
  ∧ toDict (tagged_node "Paren" [self]) = toDict c.
Proof.
  intros Hinv Htag Hcs.
  assert (∀ n x, node_inv n → tag n = JScalar (SStr "Paren") → children n = [x] →
                 toDict n = toDict x) as Hone.
  { intros n x Hn Ht Hx. dispatch Hn Ht. unfold toDict_Paren. rewrite Hx.
    apply (child_toDict_Some [x] 0 x). reflexivity. }
  split; [apply Hone; assumption|].
  rewrite (Hone (tagged_node "Paren" [self]) self (or_introl eq_refl) eq_refl eq_refl).
  apply Hone; assumption.
Qed.

Lemma toDict_Paren_transparent_witness :
  toDict (tagged_node "Paren" [op_add_node]) = toDict op_add_node
  ∧ toDict (tagged_node "Paren" [tagged_node "Paren" [op_add_node]]) = toDict op_add_node.
Proof.
  apply (toDict_Paren_transparent (tagged_node "Paren" [op_add_node]) op_add_node);
    [left; reflexivity | reflexivity | reflexivity].
Defined.

Lemma tag_is_literal (t s : string) :
  t ≠ s → tag_is (JScalar (SStr t)) s = false.
Proof. intros Hne. cbn. apply String.eqb_neq, Hne. Qed.

Lemma toDict_generic_eq (self : Node) (t : string) :
  node_inv self → tag self = JScalar (SStr t) → t ∉ special_tags →
  toDict self = (v ← mapM toDict (children self); Ok (PDict [(SStr t, PList v)])).
Proof.
  intros Hinv Htag Ht.
  rewrite toDict_unfold. unfold toDict_body.
  rewrite (node_inv_tagged _ _ Hinv Htag), Htag. cbn [is_None negb].
  unfold special_tags in Ht.
  rewrite !tag_is_literal by (intros ->; apply Ht; repeat constructor).
  cbn [orb]. unfold generic. rewrite encode_children_fmap, Htag. reflexivity.
Qed.

(** X7: a node whose tag is a string without a rule of its own encodes
    to the dict from the tag to the list of the encodings of its children,
    in their order, when all of them encode; otherwise it fails. *)
Theorem toDict_generic_tag (self : Node) (t : string) :
  node_inv self → tag self = JScalar (SStr t) → t ∉ special_tags →
  toDict self = (v ← mapM toDict (children self); Ok (PDict [(SStr t, PList v)]))
  ∧ (∀ vs, Forall2 (fun c v => toDict c = Ok v) (children self) vs →
           toDict self = Ok (PDict [(SStr t, PList vs)])).
Proof.
  intros Hinv Htag Ht. pose proof (toDict_generic_eq self t Hinv Htag Ht) as Heq.
  split; [exact Heq|]. intros vs Hvs.
  rewrite Heq, (mapM_result_Ok toDict _ vs Hvs). reflexivity.
Qed.

Lemma toDict_generic_tag_witness :
  toDict (block_node [break_node])
  = Ok (PDict [(SStr "Block", PList [PScalar (SStr "Break")])]).
Proof.
  refine (proj2 (toDict_generic_tag (block_node [break_node]) "Block" _ _ _)
            [PScalar (SStr "Break")] _).
  - left; reflexivity.
  - reflexivity.
  - apply (bool_decide_unpack _). vm_compute. exact I.
  - repeat constructor.
Defined.

(** ** The exceptions of [toDict] *)

Lemma Node_nested_ind (P : Node → Prop) :
  (∀ t cs v, Forall P cs → P {| tag := t; children := cs; value := v |}) →
  ∀ n, P n.
Proof.
  intros Hnode. fix IH 1. intros [t cs v]. apply Hnode.
  induction cs as [|c cs IHcs]; constructor; [apply IH | exact IHcs].
Qed.

Lemma bind_Raise {A B : Type} (m : result A) (k : A → result B) (e : exn) :
  (m ≫= k) = Raise e → m = Raise e ∨ ∃ a, m = Ok a ∧ k a = Raise e.
Proof.
  destruct m as [a|e']; cbn; intros H; [right; exists a; auto | left; congruence].
Qed.

Lemma mapM_result_Raise {A B : Type} (P : exn → Prop) (f : A → result B)
    (xs : list A) (e : exn) :
  Forall (fun x => ∀ e, f x = Raise e → P e) xs →
  mapM f xs = Raise e → P e.
Proof.
  induction 1 as [|x xs Hx _ IH]; [discriminate|].
  rewrite mapM_result_cons. intros H.
  apply bind_Raise in H as [H|(y & _ & H)]; [apply Hx, H|].
  apply bind_Raise in H as [H|(ys & _ & H)]; [apply IH, H | discriminate].
Qed.

Lemma half_index (n i : nat) : i < n / 2 → i * 2 + 1 < n.
Proof.
  intros Hi. pose proof (Nat.Div0.mul_div_le n 2). lia.
Qed.

Lemma odd_positive (n : nat) : n mod 2 = 1 → n - 1 < n.
Proof. destruct n; [discriminate | lia]. Qed.

Section toDict_body_exn.

Context (self : Node) (enc : list (result pyval)).
Context (Hlen : length enc = length (children self)).
Context (Henc : Forall (fun r => ∀ e, r = Raise e → toDict_exn e) enc).

Lemma child_toDict_exn (i : nat) (e : exn) :
  i < length (children self) → child_toDict enc i = Raise e → toDict_exn e.
Proof.
  intros Hi. unfold child_toDict, subscript.
  destruct (lookup_lt_is_Some_2 enc i ltac:(lia)) as [r Hr]. rewrite Hr. cbn.
  rewrite list.Forall_forall in Henc. apply Henc.
  apply list_elem_of_lookup. exists i. exact Hr.
Qed.

Lemma encode_children_exn (e : exn) :
  encode_children enc = Raise e → toDict_exn e.
Proof. apply mapM_result_Raise. exact Henc. Qed.

Lemma child_value_bound (i : nat) (e : exn) :
  i < length (children self) → child_value self i ≠ Raise e.
Proof.
  intros Hi. unfold child_value, subscript.
  destruct (lookup_lt_is_Some_2 (children self) i Hi) as [c ->]. discriminate.
Qed.

Lemma _mapOpName_exn (name : scalar) (e : exn) :
  _mapOpName name = Raise e → toDict_exn e.
Proof.
  destruct name as [| | | |s]; unfold _mapOpName;
    try (intros [= <-]; right; left; reflexivity).
  destruct (dict_get s opTable) eqn:Hs; [discriminate|].
  intros [= <-]. right. right. exists s. split; [exact Hs | reflexivity].
Qed.

Lemma dict_display_exn (key : json) (v : pyval) (e : exn) :
  dict_display key v = Raise e → toDict_exn e.
Proof.
  destruct key; cbn; [discriminate | |]; intros [= <-]; right; left; reflexivity.
Qed.

Lemma assert_exn (b : bool) (e : exn) : assert b = Raise e → toDict_exn e.
Proof. destruct b; [discriminate|]. intros [= <-]. left. reflexivity. Qed.

Lemma generic_exn (e : exn) : generic self enc = Raise e → toDict_exn e.
Proof.
  unfold generic. intros H.
  apply bind_Raise in H as [H|(v & _ & H)]; [apply encode_children_exn, H|].
  destruct (tag_is_None (tag self)); [discriminate | apply dict_display_exn in H; exact H].
Qed.

End toDict_body_exn.

Ltac raise_step Hchild Hall Hgen :=
  match goal with
  | H : Ok _ = Raise _ |- _ => discriminate H
  | H : Raise AssertionError = Raise _ |- _ => injection H as <-; left; reflexivity
  | H : (_ =? _) = true |- _ => apply Nat.eqb_eq in H
  | H : (_ <=? _) = true |- _ => apply Nat.leb_le in H
  | H : assert ?b = Ok _ |- _ => destruct b eqn:?; [clear H | discriminate H]
  | H : child_toDict _ _ = Raise _ |- _ => apply Hchild in H; [exact H | lia]
  | H : encode_children _ = Raise _ |- _ => exact (Hall _ H)
  | H : generic _ _ = Raise _ |- _ => exact (Hgen _ H)
  | H : _mapOpName _ = Raise _ |- _ => exact (_mapOpName_exn _ _ H)
  | H : assert _ = Raise _ |- _ => exact (assert_exn _ _ H)
  | H : dict_display _ _ = Raise _ |- _ => exact (dict_display_exn _ _ _ H)
  | H : child_value _ _ = Raise _ |- _ =>
      exfalso; revert H; apply child_value_bound; lia
  | H : (if ?b then _ else _) = Raise _ |- _ => destruct b eqn:?
  | H : (match ?l with [] => _ | _ :: _ => _ end) = Raise _ |- _ => destruct l eqn:?
  | H : (_ ≫= _) = Raise _ |- _ => apply bind_Raise in H as [H|(? & ? & H)]
  end.

Lemma toDict_body_exn (self : Node) (enc : list (result pyval)) :
  length enc = length (children self) →
  Forall (fun r => ∀ e, r = Raise e → toDict_exn e) enc →
  ∀ e, toDict_body self enc = Raise e → toDict_exn e.
Proof.
  intros Hlen Henc e.
  pose proof (child_toDict_exn self enc Hlen Henc) as Hchild.
  pose proof (encode_children_exn enc Henc) as Hall.
  pose proof (generic_exn self enc Henc) as Hgen.
  unfold toDict_body.
  destruct (negb (is_None (value self))); [discriminate|].
  repeat match goal with
         | |- (if ?b then _ else _) = _ → _ => destruct b
         end;
    unfold toDict_Op, toDict_Id, toDict_literal, toDict_Call, toDict_Fornum,
      toDict_Function, toDict_If, toDict_Paren; intros H.
  all: try (repeat raise_step Hchild Hall Hgen; fail).
  - (* Call: [del argList[0]] finds an entry, since there is a child *)
    apply bind_Raise in H as [H|(u & Hu & H)]; [exact (assert_exn _ _ H)|].
    destruct (1 <=? length (children self)) eqn:Hn; [|discriminate Hu].
    apply Nat.leb_le in Hn.
    apply bind_Raise in H as [H|(args & Hargs & H)]; [exact (Hall _ H)|].
    apply mapM_result_inv, Forall2_length in Hargs.
    destruct args as [|a args]; [cbn in Hargs; lia|].
    repeat raise_step Hchild Hall Hgen.
  - (* If: the indices of the loop and of the else branch are in range *)
    apply bind_Raise in H as [H|(branchList & _ & H)].
    + apply (mapM_result_Raise toDict_exn) in H; [exact H|].
      apply list.Forall_forall. intros i Hi e' He'. apply elem_of_seq in Hi.
      pose proof (half_index (length (children self)) i ltac:(lia)).
      repeat raise_step Hchild Hall Hgen.
    + apply bind_Raise in H as [H|(? & ? & H)]; [|discriminate H].
      destruct (length (children self) mod 2 =? 1) eqn:Hodd; [|discriminate H].
      apply Nat.eqb_eq, odd_positive in Hodd. apply Hchild in H; assumption.
Qed.

Lemma toDict_Raise_exn (self : Node) (e : exn) :
  toDict self = Raise e → toDict_exn e.
Proof.
  revert e. induction self as [t cs v IH] using Node_nested_ind. intros e.
  rewrite toDict_unfold. apply toDict_body_exn.
  - rewrite length_fmap. reflexivity.
  - apply Forall_fmap. exact IH.
Qed.

Lemma toDict_exn_not_lookup (e : exn) :
  toDict_exn e → e ≠ IndexError ∧ e ≠ AttributeError.
Proof.
  intros [->|[->|(s & _ & ->)]]; split; discriminate.
Qed.



(** ** More on the tree builder *)



Lemma fromInput_None_inv (inNode : json) :
  fromInput inNode = None → tagless_object inNode.
Proof.
  destruct inNode as [a|items|fields]; [discriminate | discriminate |].
  rewrite fromInput_dict. destruct (dict_get "tag" fields) eqn:Htag; [discriminate|].
  intros _. exists fields. split; [reflexivity | exact Htag].
Qed.

(** X9: [fromInput] returns [None] exactly on an object without a "tag"
    key; a list (even empty), a scalar (even null) and an object with a
    "tag" key of any type give a node. *)
Theorem fromInput_None_iff (inNode : json) :
  fromInput inNode = None ↔ tagless_object inNode.
Proof.
  split; [apply fromInput_None_inv|].
  intros (fields & -> & Htag). apply fromInput_without_tag, Htag.
Qed.

Lemma fromInput_None_iff_witness :
  fromInput (JObj tagless) = None ∧ tagless_object (JObj tagless).
Proof.
  assert (tagless_object (JObj tagless)) as Htagless.
  { exists tagless. split; reflexivity. }
  split; [apply (proj2 (fromInput_None_iff (JObj tagless)) Htagless) | exact Htagless].
Defined.



(** X11: every node of the tree that [fromInput] builds is either a node
    without a value, or a leaf without tag and children; and the root
    holds a value only when the input is that scalar. *)
Theorem fromInput_invariant (inNode : json) (n : Node) :
  fromInput inNode = Some n →
  node_ok n = true
  ∧ node_inv n
  ∧ (value n ≠ SNone → inNode = JScalar (value n)).
Proof.
  intros Hn. split; [apply (fromInput_node_ok inNode n Hn)|].
  split; [apply (fromInput_node_inv inNode n Hn)|].
  destruct inNode as [a|items|fields].
  - injection Hn as <-. reflexivity.
  - injection Hn as <-. intros Hv. destruct Hv. reflexivity.
  - rewrite fromInput_dict in Hn. destruct (dict_get "tag" fields); [|discriminate].
    injection Hn as <-. intros Hv. destruct Hv. reflexivity.
Qed.

Lemma fromInput_invariant_witness :
  node_ok op_add_node = true
  ∧ node_inv op_add_node
  ∧ (value op_add_node ≠ SNone →
     JObj [("tag", JScalar (SStr "Op"));
           ("0", JObj [("tag", JScalar (SStr "Number")); ("0", JScalar (SInt 1))]);
           ("1", JObj [("tag", JScalar (SStr "Number")); ("0", JScalar (SInt 2))]);
           ("2", JScalar (SStr "add"))]
     = JScalar (value op_add_node)).
Proof.
  apply (fromInput_invariant
           (JObj [("tag", JScalar (SStr "Op"));
                  ("0", JObj [("tag", JScalar (SStr "Number")); ("0", JScalar (SInt 1))]);
                  ("1", JObj [("tag", JScalar (SStr "Number")); ("0", JScalar (SInt 2))]);
                  ("2", JScalar (SStr "add"))])
           op_add_node).
  reflexivity.
Defined.

(** ** The transform, end to end *)

(** The encoding of a node without value and without tag. *)
Lemma toDict_untagged (cs : list Node) :
  toDict (untagged_node cs) = (v ← mapM toDict cs; Ok (PList v)).
Proof.
  rewrite toDict_unfold. unfold toDict_body, generic. cbn -[mapM].
  rewrite encode_children_fmap. reflexivity.
Qed.

(** Encoding the nodes built from inputs that all give a node is
    transforming the inputs. *)
Lemma mapM_toDict_omap_fromInput (items : list json) :
  Forall (fun j => ¬ tagless_object j) items →
  mapM toDict (omap fromInput items) = mapM transform items.
Proof.
  induction 1 as [|j items Hj _ IH]; [reflexivity|].
  assert (omap fromInput (j :: items)
          = match fromInput j with
            | Some n => n :: omap fromInput items
            | None => omap fromInput items
            end) as -> by reflexivity.
  destruct (fromInput j) as [n|] eqn:Hn; [|destruct (Hj (fromInput_None_inv j Hn))].
  rewrite !mapM_result_cons, IH.
  assert (transform j = toDict n) as -> by (unfold transform; rewrite Hn; reflexivity).
  reflexivity.
Qed.

Lemma transform_JList_eq (items : list json) :
  Forall (fun j => ¬ tagless_object j) items →
  transform (JList items) = (v ← mapM transform items; Ok (PList v)).
Proof.
  intros Hitems. unfold transform at 1. cbn [fromInput].
  rewrite <- (mapM_toDict_omap_fromInput items Hitems).
  apply (toDict_untagged (omap fromInput items)).
Qed.

(** X12: the transform of a list none of whose elements is an object
    without "tag" is the list of the transforms of its elements, in order;
    it fails with the exception of the first element that fails. *)
Theorem transform_list_elementwise (items : list json) :
  Forall (fun j => ¬ tagless_object j) items →
  transform (JList items) = (v ← mapM transform items; Ok (PList v))
  ∧ (∀ vs, Forall2 (fun j v => transform j = Ok v) items vs →
           transform (JList items) = Ok (PList vs))
  ∧ (∀ before j after e vs,
        items = before ++ j :: after →
        Forall2 (fun j v => transform j = Ok v) before vs →
        transform j = Raise e →
        transform (JList items) = Raise e).
Proof.
  intros Hitems. pose proof (transform_JList_eq items Hitems) as Heq.
  split; [exact Heq|]. split.
  - intros vs Hvs. rewrite Heq, (mapM_result_Ok transform items vs Hvs). reflexivity.
  - intros before j after e vs -> Hvs Hj. rewrite Heq. clear Heq Hitems.
    induction Hvs as [|j' v' before vs Hj' _ IH].
    + cbn [app]. rewrite mapM_result_cons, Hj. reflexivity.
    + cbn [app]. rewrite mapM_result_cons, Hj'. cbn [mbind result_bind].
      destruct (mapM transform (before ++ j :: after)); [discriminate IH|].
      cbn in IH |- *. exact IH.
Qed.

Lemma transform_list_elementwise_witness :
  transform (JList [JScalar (SInt 1); JList []])
  = Ok (PList [PScalar (SInt 1); PList []]).
Proof.
  refine (proj1 (proj2 (transform_list_elementwise [JScalar (SInt 1); JList []] _))
            _ _).
  - repeat constructor; intros (fields & Heq & _); discriminate Heq.
  - repeat constructor.
Defined.

(** X13: the transform raises [AttributeError] exactly when the input
    itself is an object without a "tag" key; such an object deeper in the
    input is dropped and never causes this failure. *)
Theorem transform_AttributeError_iff (inAst : json) :
  transform inAst = Raise AttributeError ↔ tagless_object inAst.
Proof.
  unfold transform. split.
  - destruct (fromInput inAst) as [n|] eqn:Hn; [|intros _; apply fromInput_None_inv, Hn].
    intros H. apply toDict_Raise_exn, toDict_exn_not_lookup in H as [_ H].
    destruct H. reflexivity.
  - intros (fields & -> & Htag). rewrite (fromInput_without_tag fields Htag).
    reflexivity.
Qed.

Lemma transform_AttributeError_iff_witness :
  transform (JObj tagless) = Raise AttributeError.
Proof.
  apply (proj2 (transform_AttributeError_iff (JObj tagless))).
  exists tagless. split; reflexivity.
Defined.

Lemma children_in_field_order_values (fields : list (string * json)) :
  children_in_field_order fields = omap fromInput (int_key_values fields).
Proof.
  unfold children_in_field_order, int_key_values.
  induction fields as [|[k v] fields IH]; [reflexivity|].
  cbn. destruct (reprsInt k); cbn; [|exact IH].
  destruct (fromInput v); [f_equal|]; exact IH.
Qed.

Lemma transform_object_eq (fields : list (string * json)) (t : json) :
  NoDup (dict_keys fields) → dict_get "tag" fields = Some t →
  transform (JObj fields)
  = toDict {| tag := t; children := omap fromInput (int_key_values fields);
              value := SNone |}.
Proof.
  intros Hnd Htag. unfold transform.
  rewrite (fromInput_dict_fields fields t Hnd Htag), children_in_field_order_values.
  reflexivity.
Qed.








Lemma transform_Some (j : json) :
  ¬ tagless_object j → ∃ n, fromInput j = Some n ∧ transform j = toDict n.
Proof.
  intros Hj. unfold transform. destruct (fromInput j) as [n|] eqn:Hn.
  - exists n. split; reflexivity.
  - destruct (Hj (fromInput_None_inv j Hn)).
Qed.

Lemma omap_cons_Some {A B : Type} (f : A → option B) (x : A) (y : B) (l : list A) :
  f x = Some y → omap f (x :: l) = y :: omap f l.
Proof. intros Hx. cbn. rewrite Hx. reflexivity. Qed.

Lemma omap_cons_None {A B : Type} (f : A → option B) (x : A) (l : list A) :
  f x = None → omap f (x :: l) = omap f l.
Proof. intros Hx. cbn. rewrite Hx. reflexivity. Qed.

(** X17: the optional step of a numeric for loop.  When the field "3" of
    a [Fornum] object with the fields "0" to "4" holds an object without
    "tag", that field is dropped by the builder, the node has four
    children, and the encoder puts null in the step slot and the transform
    of field "4" in the body slot. *)
Theorem transform_Fornum_absent_step (var start stop body : json)
    (absent : list (string * json)) :
  dict_get "tag" absent = None →
  ¬ tagless_object var → ¬ tagless_object start →
  ¬ tagless_object stop → ¬ tagless_object body →
  transform (JObj [("tag", JScalar (SStr "Fornum")); ("0", var); ("1", start);
                   ("2", stop); ("3", JObj absent); ("4", body)])
  = (e0 ← transform var; e1 ← transform start; e2 ← transform stop;
     e3 ← transform body;
     Ok (PDict [(SStr "Fornum", PList [e0; e1; e2; PScalar SNone; e3])])).
Proof.
  intros Habsent Hvar Hstart Hstop Hbody.
  rewrite (transform_object_eq _ (JScalar (SStr "Fornum")));
    [| apply (bool_decide_unpack _); vm_compute; exact I | reflexivity].
  change (int_key_values _) with [var; start; stop; JObj absent; body].
  destruct (transform_Some var Hvar) as (n0 & Hn0 & ->).
  destruct (transform_Some start Hstart) as (n1 & Hn1 & ->).
  destruct (transform_Some stop Hstop) as (n2 & Hn2 & ->).
  destruct (transform_Some body Hbody) as (n3 & Hn3 & ->).
  apply toDict_Fornum_4; [left; reflexivity | reflexivity |].
  cbn [children].
  rewrite (omap_cons_Some _ _ _ _ Hn0), (omap_cons_Some _ _ _ _ Hn1),
    (omap_cons_Some _ _ _ _ Hn2),
    (omap_cons_None _ _ _ (fromInput_without_tag absent Habsent)),
    (omap_cons_Some _ _ _ _ Hn3).
  reflexivity.
Qed.

Lemma transform_Fornum_absent_step_witness :
  transform (JObj [("tag", JScalar (SStr "Fornum")); ("0", JScalar (SStr "i"));
                   ("1", JScalar (SInt 1)); ("2", JScalar (SInt 9));
                   ("3", JObj tagless); ("4", JList [])])
  = Ok (PDict [(SStr "Fornum",
                PList [PScalar (SStr "i"); PScalar (SInt 1); PScalar (SInt 9);
                       PScalar SNone; PList []])]).
Proof.
  apply (transform_Fornum_absent_step (JScalar (SStr "i")) (JScalar (SInt 1))
           (JScalar (SInt 9)) (JList []) tagless);
    [reflexivity | | | |]; intros (fields & Heq & _); discriminate Heq.
Defined.

(** * Facts about the lookup tables *)

Section lookup_tables.

Import LookupTables.
Local Open Scope Z_scope.

Context (base : Z) (Hbase : 2 ≤ base).

Lemma digits_step (x : Z) :
  base ≤ x →
  (x - x mod base) / base = x / base
  ∧ 0 ≤ x mod base < base
  ∧ x = x mod base + base * (x / base)
  ∧ 0 < x / base ∧ 2 * (x / base) ≤ x.
Proof.
  intros Hx.
  pose proof (Z.div_mod x base ltac:(lia)) as Hdm.
  pose proof (Z.mod_pos_bound x base ltac:(lia)) as Hmod.
  assert (x - x mod base = x / base * base) as Hq by lia.
  split; [rewrite Hq; apply Z.div_mul; lia|].
  split; [exact Hmod|]. split; [lia|].
  assert (0 < x / base) by (apply Z.div_str_pos; lia).
  split; [assumption | nia].
Qed.

Lemma digits_loop_returns (fuel : nat) :
  ∀ x ds, 0 ≤ x → Z.log2 x < Z.of_nat fuel →
    ∃ r, digits_loop fuel x base ds = Returned (ds ++ r)
         ∧ from_digits base r = x
         ∧ Forall (fun d => 0 ≤ d < base) r
         ∧ r ≠ []
         ∧ (0 < x → ∃ d, last r = Some d ∧ 0 < d).
Proof.
  induction fuel as [|fuel IH]; intros x ds Hx Hfuel.
  - pose proof (Z.log2_nonneg x). lia.
  - cbn [digits_loop]. destruct (x >=? base) eqn:Hge.
    + apply Z.geb_le in Hge.
      destruct (digits_step x Hge) as (Hq & Hmod & Hdm & Hpos & Hhalf).
      rewrite (proj2 (Z.eqb_neq base 0)) by lia. cbv zeta. rewrite Hq.
      assert (Z.log2 (x / base) < Z.of_nat fuel) as Hlog.
      { pose proof (Z.log2_double (x / base) Hpos) as Hdbl.
        pose proof (Z.log2_le_mono (2 * (x / base)) x Hhalf). lia. }
      destruct (IH (x / base) (ds ++ [x mod base]) ltac:(lia) Hlog)
        as (r & Hr & Hval & Hrange & Hne & Hlast).
      exists (x mod base :: r). rewrite Hr, <- app_assoc.
      split; [reflexivity|].
      split; [change (from_digits base (x mod base :: r))
                with (x mod base + base * from_digits base r); rewrite Hval; lia|].
      split; [constructor; assumption|]. split; [discriminate|].
      intros _. destruct (Hlast Hpos) as (d & Hd & Hdpos). exists d.
      split; [|exact Hdpos]. destruct r; [contradiction | exact Hd].
    + assert (x < base) as Hlt.
      { destruct (Z.geb_spec x base); [discriminate | lia]. }
      exists [x]. split; [reflexivity|]. split; [cbn; lia|].
      split; [repeat constructor; lia|]. split; [discriminate|].
      intros Hpos. exists x. split; [reflexivity | exact Hpos].
Qed.

Lemma digits_loop_more_fuel (fuel : nat) :
  ∀ x b ds r, digits_loop fuel x b ds = Returned r →
    ∀ fuel', (fuel ≤ fuel')%nat → digits_loop fuel' x b ds = Returned r.
Proof.
  induction fuel as [|fuel IH]; intros x b ds r Hr fuel' Hle; [discriminate|].
  destruct fuel' as [|fuel']; [lia|]. cbn [digits_loop] in Hr |- *.
  destruct (x >=? b); [|exact Hr]. destruct (b =? 0); [discriminate|].
  apply (IH _ _ _ _ Hr). lia.
Qed.

(** X18: for a base of at least 2 and a number that is not negative,
    [digits] returns as soon as the loop may run for more than log2(x)
    tests, and always the same list: it is not empty, its entries lie
    between 0 and base - 1, they stand for x with the least significant
    digit first, and the last of them is not 0 unless x is 0. *)
Theorem digits_round_trip (x : Z) :
  0 ≤ x →
  ∃ ds,
    (∀ fuel, Z.log2 x < Z.of_nat fuel → digits fuel x base = Returned ds)
    ∧ from_digits base ds = x
    ∧ Forall (fun d => 0 ≤ d < base) ds
    ∧ ds ≠ []
    ∧ (0 < x → ∃ d, last ds = Some d ∧ 0 < d).
Proof.
  intros Hx. pose proof (Z.log2_nonneg x) as Hlog.
  destruct (digits_loop_returns (S (Z.to_nat (Z.log2 x))) x [] Hx ltac:(lia))
    as (ds & Hds & Hrest).
  exists ds. split; [|exact Hrest]. intros fuel Hfuel.
  apply (digits_loop_more_fuel _ _ _ _ _ Hds). lia.
Qed.

(** The rows of [digits_for_pos] before the padding. *)
Lemma digits_rows_returns (fuel pos : nat) (xs : list Z) :
  8 * Z.of_nat pos + 8 ≤ Z.of_nat fuel →
  Forall (fun x => 0 ≤ x < 256) xs →
  ∃ ds, digits_rows fuel pos base xs = Returned ds
        ∧ Forall2 (fun x d => from_digits base d = x * 2 ^ (8 * Z.of_nat pos)
                              ∧ Forall (fun d => 0 ≤ d < base) d ∧ d ≠ []) xs ds.
Proof.
  intros Hfuel. induction 1 as [|x xs Hx _ (ds & Hds & Hall)].
  - exists []. split; [reflexivity | constructor].
  - set (y := x * 2 ^ (8 * Z.of_nat pos)).
    assert (Z.shiftl x (bits_per_chunk * Z.of_nat pos) = y) as Hshift.
    { apply Z.shiftl_mul_pow2. unfold bits_per_chunk. lia. }
    assert (0 ≤ y) as Hy by (unfold y; apply Z.mul_nonneg_nonneg; lia).
    assert (Z.log2 y < Z.of_nat fuel) as Hlog.
    { destruct (Z.eq_dec y 0) as [->|Hy0]; [cbn; lia|].
      assert (y < 2 ^ (8 * Z.of_nat pos + 8)) as Hlt.
      { rewrite Z.pow_add_r by lia. unfold y.
        assert (0 < 2 ^ (8 * Z.of_nat pos)) by (apply Z.pow_pos_nonneg; lia).
        change (2 ^ 8) with 256. nia. }
      apply Z.log2_lt_pow2 in Hlt; lia. }
    destruct (digits_loop_returns fuel y [] Hy Hlog) as (d & Hd & Hval & Hrange & Hne & _).
    exists (d :: ds). split.
    + cbn [digits_rows]. unfold digits. rewrite Hshift, Hd. cbn [outcome_bind].
      rewrite Hds. reflexivity.
    + constructor; [|exact Hall]. split; [exact Hval|]. split; assumption.
Qed.

Lemma foldl_max_length (ds : list (list Z)) (m0 : nat) :
  (m0 ≤ foldl (fun m d => Nat.max (length d) m) m0 ds)%nat
  ∧ Forall (fun d => (length d ≤ foldl (fun m d => Nat.max (length d) m) m0 ds)%nat) ds.
Proof.
  revert m0. induction ds as [|d ds IH]; intros m0; cbn [foldl].
  - split; [reflexivity | constructor].
  - destruct (IH (Nat.max (length d) m0)) as [Hm Hall].
    split; [lia|]. constructor; [lia | exact Hall].
Qed.

Lemma from_digits_cons (a : Z) (d : list Z) :
  from_digits base (a :: d) = a + base * from_digits base d.
Proof. reflexivity. Qed.

Lemma from_digits_zeros (k : nat) : from_digits base (replicate k 0) = 0.
Proof.
  induction k as [|k IH]; [reflexivity|].
  cbn [replicate]. rewrite from_digits_cons, IH. lia.
Qed.

Lemma from_digits_pad (m : nat) (d : list Z) :
  from_digits base (pad m d) = from_digits base d.
Proof.
  unfold pad. generalize (m - length d)%nat. intros k.
  induction d as [|a d IH]; [apply from_digits_zeros|].
  cbn [app]. rewrite !from_digits_cons, IH. reflexivity.
Qed.

(** X19: for a base of at least 2, and once the loops of [digits] may
    run for 8 * pos + 8 tests, [digits_for_pos] returns a table of 256
    rows that all have the returned length, which is at least 1; every
    entry lies between 0 and base - 1; and row x stands for
    x * 2 ^ (8 * pos): the zeros of the padding do not change the number. *)
Theorem digits_for_pos_table (fuel pos : nat) :
  8 * Z.of_nat pos + 8 ≤ Z.of_nat fuel →
  ∃ max_ndigits rows,
    digits_for_pos fuel pos base = Returned (max_ndigits, rows)
    ∧ length rows = 256%nat
    ∧ (1 ≤ max_ndigits)%nat
    ∧ Forall (fun row => length row = max_ndigits
                         ∧ Forall (fun d => 0 ≤ d < base) row) rows
    ∧ (∀ x, 0 ≤ x < 256 →
            ∃ row, rows !! Z.to_nat x = Some row
                   ∧ from_digits base row = x * 2 ^ (8 * Z.of_nat pos)).
Proof.
  intros Hfuel.
  assert (Forall (fun x => 0 ≤ x < 256) (seqZ 0 256)) as Hxs.
  { apply Forall_seqZ. intros x Hx. lia. }
  destruct (digits_rows_returns fuel pos (seqZ 0 256) Hfuel Hxs) as (ds & Hds & Hall).
  unfold digits_for_pos. change (Z.shiftl 1 bits_per_chunk) with 256.
  rewrite Hds. cbn [outcome_bind]. cbv zeta.
  pose proof (foldl_max_length ds 0) as [_ Hmax].
  set (m := foldl (fun m d => Nat.max (length d) m) 0%nat ds) in *.
  assert (length ds = 256%nat) as Hlen.
  { rewrite <- (Forall2_length _ _ _ Hall), length_seqZ. reflexivity. }
  assert (Forall (fun d => Forall (fun a => 0 ≤ a < base) d ∧ d ≠ []) ds) as Hrows.
  { clear -Hall. induction Hall as [|x d xs ds (_ & Hr & Hne) _ IH];
      constructor; [split; assumption | exact IH]. }
  exists m, (pad m <$> ds). split; [reflexivity|].
  split; [rewrite length_fmap; exact Hlen|]. split; [|split].
  - destruct ds as [|d ds]; [discriminate Hlen|].
    apply Forall_cons_1 in Hmax as [Hd _]. apply Forall_cons_1 in Hrows as [[_ Hne] _].
    destruct d; [contradiction | cbn [length] in Hd; lia].
  - apply Forall_fmap. clearbody m. clear -Hmax Hrows Hbase.
    induction ds as [|d ds IH]; [constructor|].
    apply Forall_cons_1 in Hmax as [Hd Hmax].
    apply Forall_cons_1 in Hrows as [[Hr _] Hrows].
    constructor; [|apply IH; assumption]. cbn. unfold pad. split.
    + rewrite length_app, length_replicate. lia.
    + apply Forall_app. split; [exact Hr|]. apply Forall_replicate. lia.
  - intros x Hx.
    assert (seqZ 0 256 !! Z.to_nat x = Some x) as Hlook.
    { rewrite lookup_seqZ_lt by lia. f_equal. lia. }
    destruct (Forall2_lookup_l _ _ _ _ _ Hall Hlook) as (d & Hd & Hval & _).
    exists (pad m d). split; [rewrite list_lookup_fmap, Hd; reflexivity|].
    rewrite from_digits_pad. exact Hval.
Qed.

End lookup_tables.

Lemma digits_round_trip_witness :
  ∃ ds,
    (∀ fuel, (Z.log2 10 < Z.of_nat fuel)%Z →
             LookupTables.digits fuel 10 3 = LookupTables.Returned ds)
    ∧ LookupTables.from_digits 3 ds = 10%Z
    ∧ Forall (fun d => (0 ≤ d < 3)%Z) ds
    ∧ ds ≠ []
    ∧ ((0 < 10)%Z → ∃ d, last ds = Some d ∧ (0 < d)%Z).
Proof. apply (digits_round_trip 3 ltac:(lia) 10). lia. Defined.

Lemma digits_for_pos_table_witness :
  ∃ max_ndigits rows,
    LookupTables.digits_for_pos 16 1 3 = LookupTables.Returned (max_ndigits, rows)
    ∧ length rows = 256
    ∧ 1 ≤ max_ndigits
    ∧ Forall (fun row => length row = max_ndigits
                         ∧ Forall (fun d => (0 ≤ d < 3)%Z) row) rows
    ∧ (∀ x, (0 ≤ x < 256)%Z →
            ∃ row, rows !! Z.to_nat x = Some row
                   ∧ LookupTables.from_digits 3 row = (x * 2 ^ (8 * Z.of_nat 1))%Z).
Proof. apply (digits_for_pos_table 3 ltac:(lia) 16 1). lia. Defined.

Example digits_10_base_3 :
  LookupTables.digits 4 10 3 = LookupTables.Returned [1; 0; 1]%Z.
Proof. reflexivity. Qed.

(** X20: outside that domain.  A number below the base, negative ones
    included, is returned as the only digit after one test; with base 0
    a number that is not negative makes [%] raise [ZeroDivisionError];
    with base 1 a number of at least 1 keeps the loop running for ever. *)
Theorem digits_edge_cases (x : Z) :
  (∀ base fuel, (x < base)%Z →
     LookupTables.digits (S fuel) x base = LookupTables.Returned [x])
  ∧ (∀ fuel, (0 ≤ x)%Z →
       LookupTables.digits (S fuel) x 0 = LookupTables.ZeroDivisionError)
  ∧ (∀ fuel, (1 ≤ x)%Z →
       LookupTables.digits fuel x 1 = LookupTables.Unfinished).
Proof.
  split; [|split].
  - intros base fuel Hlt. unfold LookupTables.digits. cbn.
    destruct (Z.geb_spec x base); [lia | reflexivity].
  - intros fuel Hx. unfold LookupTables.digits. cbn.
    destruct (Z.geb_spec x 0); [reflexivity | lia].
  - intros fuel Hx. unfold LookupTables.digits. generalize (@nil Z).
    induction fuel as [|fuel IH]; intros ds; [reflexivity|].
    cbn [LookupTables.digits_loop].
    destruct (Z.geb_spec x 1); [|lia]. cbn [Z.eqb]. cbv zeta.
    rewrite Z.mod_1_r, Z.sub_0_r, Z.div_1_r. apply IH.
Qed.

Lemma digits_edge_cases_witness :
  LookupTables.digits 1 (-5) 3 = LookupTables.Returned [(-5)%Z]
  ∧ LookupTables.digits 1 5 0 = LookupTables.ZeroDivisionError
  ∧ LookupTables.digits 1000 5 1 = LookupTables.Unfinished.
Proof.
  split; [|split].
  - apply (proj1 (digits_edge_cases (-5)) 3%Z 0). lia.
  - apply (proj1 (proj2 (digits_edge_cases 5)) 0). lia.
  - apply (proj2 (proj2 (digits_edge_cases 5)) 1000). lia.
Defined.

(** * More on operator nodes *)

(** X21: an [Op] node whose operator child does not hold a string (a
    number, a boolean, or no value at all because the child is not a
    leaf) fails with [TypeError], raised while the message of the
    unknown-operator exception is built; no operand is encoded. *)
Theorem toDict_Op_operator_not_a_string (self : Node) :
  node_inv self → tag self = JScalar (SStr "Op") →
  (∀ c0 c1 c2, children self = [c0; c1; c2] →
               (∀ s, value c2 ≠ SStr s) → toDict self = Raise TypeError)
  ∧ (∀ c0 c1, children self = [c0; c1] →
              (∀ s, value c0 ≠ SStr s) → toDict self = Raise TypeError).
Proof.
  intros Hinv Htag.
  assert (∀ a, (∀ s, a ≠ SStr s) → _mapOpName a = Raise TypeError) as Hname.
  { intros [| | | |s] Ha; try reflexivity. destruct (Ha s eq_refl). }
  split.
  - intros c0 c1 c2 Hcs Hv.
    rewrite (toDict_Op_binary self c0 c1 c2 Hinv Htag Hcs), (Hname _ Hv). reflexivity.
  - intros c0 c1 Hcs Hv.
    rewrite (toDict_Op_unary self c0 c1 Hinv Htag Hcs), (Hname _ Hv). reflexivity.
Qed.

Lemma toDict_Op_operator_not_a_string_witness :
  toDict (tagged_node "Op" [number_node 1; number_node 2; id_node "add"])
  = Raise TypeError
  ∧ toDict (tagged_node "Op" [leaf (SInt 0); number_node 1]) = Raise TypeError.
Proof.
  split.
  - apply (proj1 (toDict_Op_operator_not_a_string
                    (tagged_node "Op" [number_node 1; number_node 2; id_node "add"])
                    (or_introl eq_refl) eq_refl)
             (number_node 1) (number_node 2) (id_node "add"));
      [reflexivity | discriminate].
  - apply (proj2 (toDict_Op_operator_not_a_string
                    (tagged_node "Op" [leaf (SInt 0); number_node 1])
                    (or_introl eq_refl) eq_refl)
             (leaf (SInt 0)) (number_node 1));
      [reflexivity | discriminate].
Defined.

(** X22: when the operator of a binary [Op] node resolves, the operands
    are encoded from left to right and the first exception is the
    exception of the node: that of the left operand, or that of the right
    operand when the left one encodes. *)
Theorem toDict_Op_operand_failure (self c0 c1 c2 : Node) (opName : string) (e : exn) :
  node_inv self → tag self = JScalar (SStr "Op") →
  children self = [c0; c1; c2] → _mapOpName (value c2) = Ok opName →
  (toDict c0 = Raise e → toDict self = Raise e)
  ∧ (∀ e0, toDict c0 = Ok e0 → toDict c1 = Raise e → toDict self = Raise e).
Proof.
  intros Hinv Htag Hcs Hop.
  rewrite (toDict_Op_binary self c0 c1 c2 Hinv Htag Hcs), Hop. split.
  - intros ->. reflexivity.
  - intros e0 -> ->. reflexivity.
Qed.

Lemma toDict_Op_operand_failure_witness :
  toDict (tagged_node "Op" [op_xor_unary; op_four; leaf (SStr "add")])
  = Raise (Exception "Unknown op name: xor")
  ∧ toDict (tagged_node "Op" [number_node 1; op_four; leaf (SStr "add")])
    = Raise AssertionError.
Proof.
  split.
  - apply (proj1 (toDict_Op_operand_failure
                    (tagged_node "Op" [op_xor_unary; op_four; leaf (SStr "add")])
                    op_xor_unary op_four (leaf (SStr "add")) "Add"
                    (Exception "Unknown op name: xor")
                    (or_introl eq_refl) eq_refl eq_refl eq_refl)).
    reflexivity.
  - apply (proj2 (toDict_Op_operand_failure
                    (tagged_node "Op" [number_node 1; op_four; leaf (SStr "add")])
                    (number_node 1) op_four (leaf (SStr "add")) "Add" AssertionError
                    (or_introl eq_refl) eq_refl eq_refl eq_refl)
             (PDict [(SStr "Number", PScalar (SInt 1))])); reflexivity.
Defined.
